(** * gitwit-agent: the container lifecycle and I/O core

    A shallow embedding of [src/container.ts] (and of the identical
    functions of [src/app.js], together with the container phase of its
    main script) as programs of a small asynchronous-effect monad, and
    theorems about the runtime calls they issue, the order of those
    calls, and the way failures, stream events and interrupt signals
    travel through them.

    The code is a thin layer over three libraries: dockerode (the
    runtime endpoint), Node's [path] module and Node's event emitters
    and process signals.  The endpoint is a parameter of the development
    (a record of reply functions, see [Runtime]); the parts of Node the
    code relies on are modelled explicitly and documented where they are
    defined. *)

From Stdlib Require Import String Ascii List Bool Arith NArith Lia.
From ExtLib Require Import Structures.Monad.
Import ListNotations.
Import MonadNotation.

Local Open Scope string_scope.
Local Open Scope list_scope.
Local Open Scope monad_scope.

(** ** Node's [path] module (POSIX flavour)

    [path.dirname] and [path.basename] are library functions; the two
    definitions below follow the scanning loops of Node's
    [path.posix]: trailing separators are skipped, the last component
    is what precedes them, the directory is what precedes the
    separator in front of that component. *)

Definition isSlash (c : ascii) : bool := Ascii.eqb c "/"%char.

Fixpoint dropWhile {A} (f : A -> bool) (l : list A) : list A :=
  match l with
  | [] => []
  | x :: l' => if f x then dropWhile f l' else l
  end.

Fixpoint takeWhile {A} (f : A -> bool) (l : list A) : list A :=
  match l with
  | [] => []
  | x :: l' => if f x then x :: takeWhile f l' else []
  end.

(** [path.basename(p)]: the characters between the last separator that
    is followed by a component and the trailing separators. *)
Definition basename_chars (p : list ascii) : list ascii :=
  rev (takeWhile (fun c => negb (isSlash c)) (dropWhile isSlash (rev p))).

Definition basename (p : string) : string :=
  string_of_list_ascii (basename_chars (list_ascii_of_string p)).

(** [path.dirname(p)].  The loop of Node runs from the last index down
    to index 1, so a separator at index 0 is never taken as the end of
    the directory: that is the [hasRoot] case. *)
Definition dirname_chars (p : list ascii) : list ascii :=
  match p with
  | [] => ["."%char]
  | c0 :: _ =>
      let hasRoot := isSlash c0 in
      (* reversed prefix that ends with the separator before the last component *)
      let upto := dropWhile (fun c => negb (isSlash c)) (dropWhile isSlash (rev p)) in
      match upto with
      | [] | [_] => if hasRoot then ["/"%char] else ["."%char]
      | _ :: before =>
          if hasRoot && Nat.eqb (length before) 1 then ["/"%char; "/"%char]
          else rev before
      end
  end.

Definition dirname (p : string) : string :=
  string_of_list_ascii (dirname_chars (list_ascii_of_string p)).

(** Array.prototype.join, used for exec identifiers of the sample runtime. *)
Fixpoint join (sep : string) (l : list string) : string :=
  match l with
  | [] => ""
  | [x] => x
  | x :: l' => x ++ sep ++ join sep l'
  end.

(** ** Data exchanged with the runtime endpoint *)

Definition error := string.

(** Result of a call that may throw, or of a request that may be refused. *)
Inductive reply (A : Type) : Type :=
| Ok (a : A)
| Err (e : error).
Arguments Ok {A} a.
Arguments Err {A} e.

(** The options object of [docker.createContainer]. *)
Record CreateOptions := {
  Image : string;
  Env : list string;
  Tty : bool;
  Cmd : list string;
  OpenStdin : bool
}.

(** A [Docker.Container] handle. *)
Record Container := { id : string }.

Record StopOptions := { force : bool }.

Record LogsOptions := { follow : bool; stdout : bool; stderr : bool }.

Record ExecOptions := {
  exec_Cmd : list string;
  AttachStdout : bool;
  AttachStderr : bool
}.

(** A [Docker.Exec] session handle. *)
Record Exec := { exec_id : string }.

Record ExecStartOptions := { hijack : bool; stdin : bool }.

Record TarOptions := { gzip : bool; portable : bool; cwd : string }.

(** The value of [tar.create(options, files)] when no [file] option is
    given: a pack stream over the listed entries, relative to [cwd].
    The stream starts at once to look its entries up in the local file
    system, behind the back of its caller, and writes each one with
    everything beneath it; when an entry is missing it emits "error".
    What the stream delivers is [packed], below. *)
Record Archive := { tar_options : TarOptions; tar_files : list string }.

Definition tar_create (o : TarOptions) (files : list string) : Archive :=
  {| tar_options := o; tar_files := files |}.

Record PutArchiveOptions := { path : string }.

Inductive request : Type :=
| DockerCreateContainer (o : CreateOptions)
| ContainerStart (c : Container)
| ContainerStop (c : Container) (o : option StopOptions)
| ContainerRemove (c : Container)
| ContainerLogs (c : Container) (o : LogsOptions)
| ContainerExec (c : Container) (o : ExecOptions)
| ExecStart (x : Exec) (o : ExecStartOptions)
| ContainerPutArchive (c : Container) (a : Archive) (o : PutArchiveOptions).

(** ** Streams, listeners and promises *)

(** What a stream does after it has been handed to the code. *)
Inductive sevent : Type :=
| Data (chunk : string)
| End
| Error (e : error).

Definition eventName (ev : sevent) : string :=
  match ev with
  | Data _ => "data"
  | End => "end"
  | Error _ => "error"
  end.

(** The argument a listener receives. *)
Definition payload (ev : sevent) : string :=
  match ev with
  | Data chunk => chunk
  | End => "undefined"
  | Error e => e
  end.

(** The closures the code passes to [stream.on]. *)
Inductive listener : Type :=
| LogChunk          (* chunk => console.log(chunk.toString())          startContainer *)
| LogCommandOutput  (* data => console.log(`Command output: ${data}`)  runCommandInContainer *)
| ResolveWait.      (* async () => { resolve(); }                      waitForStreamEnd *)

(** What the runtime hands over: whether [on] throws on this object,
    and the events the stream will emit, in order. *)
Record StreamSource := {
  on_throws : option error;
  events : list sevent
}.

Record Stream := {
  source : StreamSource;
  listeners : list (string * listener)
}.

Definition newStream (src : StreamSource) : Stream :=
  {| source := src; listeners := [] |}.

(** [stream.on(name, l)]: appends the listener, or throws. *)
Definition on (s : Stream) (name : string) (l : listener) : reply Stream :=
  match on_throws (source s) with
  | Some e => Err e
  | None => Ok {| source := source s; listeners := listeners s ++ [(name, l)] |}
  end.

Definition listenersFor (s : Stream) (name : string) : list listener :=
  map snd (filter (fun nl => String.eqb (fst nl) name) (listeners s)).

(** The promise created by [waitForStreamEnd]. *)
Inductive promise : Type :=
| PPending
| PFulfilled
| PRejected (e : error).

(** [resolve()]: settles a pending promise, does nothing otherwise. *)
Definition resolve (p : promise) : promise :=
  match p with
  | PPending => PFulfilled
  | _ => p
  end.

(** ** The process and its world *)

(** Runtime-side state of the invocation's container (spec, 4.2). *)
Inductive cstate : Type := NotCreated | Created | Running | Stopped | Removed.

(** The closure registered with [process.on('SIGINT', ...)]:
    [async function () { console.log("Caught interrupt signal");
                         await container.stop({ force: true }); }] *)
Inductive handler : Type :=
| ForceStop (container : Container).

Inductive event : Type :=
| EvLog (line : string)        (* console.log *)
| EvOnSIGINT (h : handler)     (* process.on('SIGINT', h) *)
| EvRequest (r : request)      (* a call issued to the runtime endpoint *)
| EvSIGINT                     (* an interrupt signal reaches the process *)
| EvEmit (ev : sevent).        (* the awaited stream emits an event *)

Record World := {
  container_state : cstate;
  localFiles : list string;          (* paths that exist on the local file system *)
  sigintListeners : list handler;    (* in registration order *)
  clock : nat;                       (* event-loop turns taken so far *)
  trace : list event                 (* everything observable, oldest first *)
}.

(** ** The local file system and the pack stream

    The local file system is the list of the paths that exist.  A
    directory is listed with a trailing separator, and it is there as
    soon as a path beneath it is.  Paths are compared as they are
    written, and a path is listed the way the pack stream spells it:
    the directory and the name, with a separator between them. *)

Definition noSuchFile : error := "ENOENT: no such file or directory".

Inductive fileKind : Type := RegularFile | Directory.

Definition endsWithSlash (p : string) : bool :=
  isSlash (last (list_ascii_of_string p) " "%char).

(** A path as a directory: the prefix of everything beneath it. *)
Definition asDirectory (p : string) : string :=
  if endsWithSlash p then p else p ++ "/".

(** [q] lies beneath the directory [dir]. *)
Definition beneath (dir q : string) : bool :=
  String.prefix (asDirectory dir) q && negb (String.eqb q (asDirectory dir)).

(** [fs.lstat]: nothing for a path that does not exist. *)
Definition lstat (files : list string) (p : string) : option fileKind :=
  if existsb (String.prefix (asDirectory p)) files then Some Directory
  else if existsb (String.eqb p) files then Some RegularFile
  else None.

(** The path exists. *)
Definition existsSync (w : World) (p : string) : bool :=
  match lstat (localFiles w) p with
  | Some _ => true
  | None => false
  end.

(** The path an entry of the archive stands for: the name resolved
    against [cwd], with a separator between the two unless [cwd] ends
    with one, as the root does. *)
Definition entryPath (a : Archive) (name : string) : string :=
  asDirectory (cwd (tar_options a)) ++ name.

(** The name, inside the archive, of a path [q] beneath the entry
    [name], which stands for [p]: what follows [p] in [q], after the
    name of the entry. *)
Definition memberName (p name q : string) : string :=
  name ++ "/" ++ substring (String.length (asDirectory p))
                           (String.length q - String.length (asDirectory p)) q.

(** What the pack stream writes for one entry: the file under its
    name, or the directory, with a trailing separator, followed by
    everything beneath it; [lstat] fails on a missing entry. *)
Definition packEntry (files : list string) (a : Archive) (name : string)
    : reply (list string) :=
  let p := entryPath a name in
  match lstat files p with
  | None => Err noSuchFile
  | Some RegularFile => Ok [name]
  | Some Directory =>
      Ok ((name ++ "/")%string :: map (memberName p name) (filter (beneath p) files))
  end.

Fixpoint packEntries (files : list string) (a : Archive) (names : list string)
    : reply (list string) :=
  match names with
  | [] => Ok []
  | name :: rest =>
      match packEntry files a name with
      | Err e => Err e
      | Ok entries =>
          match packEntries files a rest with
          | Err e => Err e
          | Ok more => Ok (entries ++ more)
          end
      end
  end.

(** The names of the entries the pack stream delivers, in order, or
    the error it emits. *)
Definition packed (files : list string) (a : Archive) : reply (list string) :=
  packEntries files a (tar_files a).

Definition set_state (s : cstate) (w : World) : World :=
  {| container_state := s; localFiles := localFiles w;
     sigintListeners := sigintListeners w; clock := clock w; trace := trace w |}.

Definition add_listener (h : handler) (w : World) : World :=
  {| container_state := container_state w; localFiles := localFiles w;
     sigintListeners := sigintListeners w ++ [h]; clock := clock w; trace := trace w |}.

Definition advance (w : World) : World :=
  {| container_state := container_state w; localFiles := localFiles w;
     sigintListeners := sigintListeners w; clock := S (clock w); trace := trace w |}.

Definition record (e : event) (w : World) : World :=
  {| container_state := container_state w; localFiles := localFiles w;
     sigintListeners := sigintListeners w; clock := clock w; trace := trace w ++ [e] |}.

(** Projections of the trace. *)
Definition requestsOf (t : list event) : list request :=
  flat_map (fun e => match e with EvRequest r => [r] | _ => [] end) t.

Definition consoleOf (t : list event) : list string :=
  flat_map (fun e => match e with EvLog l => [l] | _ => [] end) t.

Definition emittedOf (t : list event) : list sevent :=
  flat_map (fun e => match e with EvEmit ev => [ev] | _ => [] end) t.

(** Ways the process itself goes away.  The script uses
    [String.prototype.replaceAll], so it runs on Node 15 or later, where
    a rejected promise nobody handles ends the process. *)
Inductive crash : Type :=
| KilledBySIGINT                   (* default disposition: no listener registered *)
| UncaughtException (e : error)    (* thrown out of an event emitter *)
| UnhandledRejection (e : error).  (* a rejected promise outside the main chain *)

(** What the caller of an asynchronous function observes. *)
Inductive outcome (A : Type) : Type :=
| Fulfilled (a : A)     (* the awaited promise fulfils *)
| Rejected (e : error)  (* it rejects: the exception travels up the awaiting chain *)
| Suspended             (* it never settles: the caller waits forever *)
| Crashed (c : crash).  (* the process ended meanwhile *)
Arguments Fulfilled {A} a.
Arguments Rejected {A} e.
Arguments Suspended {A}.
Arguments Crashed {A} c.

Definition Async (A : Type) : Type := World -> outcome A * World.

#[export] Instance Monad_Async : Monad Async := {
  ret := fun _ a w => (Fulfilled a, w);
  bind := fun _ _ m k w =>
    match m w with
    | (Fulfilled a, w') => k a w'
    | (Rejected e, w') => (Rejected e, w')
    | (Suspended, w') => (Suspended, w')
    | (Crashed c, w') => (Crashed c, w')
    end
}.

Definition throw {A} (e : error) : Async A := fun w => (Rejected e, w).
Definition suspend {A} : Async A := fun w => (Suspended, w).
Definition die {A} (c : crash) : Async A := fun w => (Crashed c, w).
Definition emit (e : event) : Async unit := fun w => (Fulfilled tt, record e w).
Definition console_log (line : string) : Async unit := emit (EvLog line).

(** A synchronous call that may throw. *)
Definition sync {A} (r : reply A) : Async A :=
  match r with
  | Ok a => ret a
  | Err e => throw e
  end.

(** [process.on('SIGINT', h)] *)
Definition process_on_SIGINT (h : handler) : Async unit :=
  fun w => (Fulfilled tt, add_listener h (record (EvOnSIGINT h) w)).

(** ** The runtime endpoint

    Every operation of dockerode the code calls, as a reply function:
    given the world at the moment the runtime acts, the reply and the
    container's next state.  The runtime reads the world and changes
    only the container.  [putArchive] is given the pack stream and
    receives the entries the stream delivers; [rt_listensToArchive]
    tells whether it registers an "error" listener on that stream. *)
Definition endpoint (A : Type) : Type := World -> reply A * cstate.

Record Runtime := {
  rt_createContainer : CreateOptions -> endpoint Container;
  rt_start : Container -> endpoint unit;
  rt_stop : Container -> option StopOptions -> endpoint unit;
  rt_remove : Container -> endpoint unit;
  rt_logs : Container -> LogsOptions -> endpoint StreamSource;
  rt_exec : Container -> ExecOptions -> endpoint Exec;
  rt_exec_start : Exec -> ExecStartOptions -> endpoint StreamSource;
  rt_putArchive : Container -> Archive -> list string -> PutArchiveOptions
                  -> endpoint unit;
  rt_listensToArchive : bool
}.

(** The runtime acts on a request. *)
Definition perform {A} (act : endpoint A) : Async (reply A) :=
  fun w => let '(r, s) := act w in (Fulfilled r, set_state s w).

(** If the runtime refuses, the awaited promise rejects. *)
Definition settle {A} (r : reply A) : Async A := sync r.

(** ** The programs of the repository *)

Section Invocation.

(** The runtime the invocation talks to. *)
Variable rt : Runtime.

(** [interrupts n] holds when an interrupt signal reaches the process
    during event-loop turn [n]. *)
Variable interrupts : nat -> bool.

(** The interrupt listener, up to its [await]: it runs within the turn
    of the signal. *)
Definition handlerCall (h : handler) : Async unit :=
  match h with
  | ForceStop container =>
      console_log "Caught interrupt signal" ;;
      emit (EvRequest (ContainerStop container (Some {| force := true |})))
  end.

(** The rest of the listener: the runtime answers; when it refuses,
    the listener's promise rejects and nobody handles it. *)
Definition handlerReply (h : handler) : Async unit :=
  match h with
  | ForceStop container =>
      r <- perform (rt_stop rt container (Some {| force := true |})) ;;
      match r with
      | Ok _ => ret tt
      | Err e => die (UnhandledRejection e)
      end
  end.

Fixpoint forEach {A} (f : A -> Async unit) (l : list A) : Async unit :=
  match l with
  | [] => ret tt
  | x :: l' => f x ;; forEach f l'
  end.

(** An interrupt signal reaches the process: without a listener the
    default disposition ends it, otherwise every listener is called, in
    registration order, and then their requests are answered. *)
Definition deliverSIGINT : Async unit :=
  emit EvSIGINT ;;
  fun w =>
    match sigintListeners w with
    | [] => die KilledBySIGINT w
    | hs => (forEach handlerCall hs ;; forEach handlerReply hs) w
    end.

(** One turn of the event loop while the main chain is suspended. *)
Definition turn : Async unit :=
  fun w =>
    if interrupts (clock w) then deliverSIGINT (advance w)
    else (Fulfilled tt, advance w).

(** [await endpoint.call(...)]: the request leaves at once, the caller
    is suspended for a turn before the runtime acts and for a turn
    before it resumes with the reply. *)
Definition await {A} (r : request) (act : endpoint A) : Async A :=
  emit (EvRequest r) ;;
  turn ;;
  res <- perform act ;;
  turn ;;
  settle res.

(** *** createContainer (container.ts 5-14, app.js 75-84) *)

Definition createOptions (tag : string) (environment : list string) : CreateOptions :=
  {| Image := tag;
     Env := environment;
     Tty := true;
     Cmd := ["/bin/sh"];
     OpenStdin := true |}.

Definition createContainer (tag : string) (environment : list string) : Async Container :=
  await (DockerCreateContainer (createOptions tag environment))
        (rt_createContainer rt (createOptions tag environment)).

(** *** startContainer (container.ts 16-29, app.js 86-99)

    The log stream is returned with its "data" listener registered;
    the main script drops it and never waits on it, and its chunks are
    not simulated. *)

Definition logsOptions : LogsOptions :=
  {| follow := true; stdout := true; stderr := true |}.

Definition startContainer (container : Container) : Async Stream :=
  process_on_SIGINT (ForceStop container) ;;
  await (ContainerStart container) (rt_start rt container) ;;
  src <- await (ContainerLogs container logsOptions) (rt_logs rt container logsOptions) ;;
  stream <- sync (on (newStream src) "data" LogChunk) ;;
  ret stream.

(** *** waitForStreamEnd (container.ts 31-41, app.js 101-111) *)

(** A listener is called with the payload of the event. *)
Definition runListener (ev : sevent) (p : promise) (l : listener) : Async promise :=
  match l with
  | LogChunk => console_log (payload ev) ;; ret p
  | LogCommandOutput => console_log ("Command output: " ++ payload ev) ;; ret p
  | ResolveWait => ret (resolve p)
  end.

Fixpoint runListeners (ev : sevent) (p : promise) (ls : list listener) : Async promise :=
  match ls with
  | [] => ret p
  | l :: ls' => p' <- runListener ev p l ;; runListeners ev p' ls'
  end.

(** The stream emits an event: its listeners run in registration
    order; an "error" event without a listener is thrown by the
    emitter (Node's EventEmitter), outside any promise. *)
Definition emitEvent (s : Stream) (ev : sevent) (p : promise) : Async promise :=
  emit (EvEmit ev) ;;
  match ev, listenersFor s (eventName ev) with
  | Error e, [] => die (UncaughtException e)
  | _, ls => runListeners ev p ls
  end.

(** Awaiting the promise: the stream's events arrive one per turn
    until the promise is settled; if the events run out first it never
    is. *)
Fixpoint awaitPromise (s : Stream) (evs : list sevent) (p : promise) : Async unit :=
  match p with
  | PFulfilled => ret tt
  | PRejected e => throw e
  | PPending =>
      match evs with
      | [] => suspend
      | ev :: rest =>
          turn ;;
          p' <- emitEvent s ev p ;;
          awaitPromise s rest p'
      end
  end.

(** The executor of the promise runs at once: it registers the "end"
    listener, and rejects if the registration throws. *)
Definition waitForStreamEnd (stream : Stream) : Async unit :=
  match on stream "end" ResolveWait with
  | Ok stream' => awaitPromise stream' (events (source stream')) PPending
  | Err err => awaitPromise stream (events (source stream)) (PRejected err)
  end.

(** *** runCommandInContainer (container.ts 42-53, app.js 113-124) *)

Definition execOptions (command : list string) : ExecOptions :=
  {| exec_Cmd := command; AttachStdout := true; AttachStderr := true |}.

Definition execStartOptions : ExecStartOptions :=
  {| hijack := true; stdin := true |}.

Definition runCommandInContainer (container : Container) (command : list string) : Async unit :=
  exec <- await (ContainerExec container (execOptions command))
                (rt_exec rt container (execOptions command)) ;;
  src <- await (ExecStart exec execStartOptions) (rt_exec_start rt exec execStartOptions) ;;
  stream <- sync (on (newStream src) "data" LogCommandOutput) ;;
  waitForStreamEnd stream.

(** *** copyFileToContainer (container.ts 55-59, app.js 126-130) *)

Definition archiveOf (localFilePath : string) : Archive :=
  let baseDir := dirname localFilePath in
  tar_create {| gzip := false; portable := true; cwd := baseDir |}
             [basename localFilePath].

(** The archive is the body of the request.  While the request is in
    flight the pack stream looks its entries up.  When it finds them
    the runtime receives them and answers.  When one is missing the
    stream emits "error": a runtime that listens on the stream gives
    the request up with that error; without a listener the emitter
    throws the error, outside any promise. *)
Definition sendArchive (container : Container) (archive : Archive)
    (options : PutArchiveOptions) : Async (reply unit) :=
  fun w =>
    match packed (localFiles w) archive with
    | Ok entries => perform (rt_putArchive rt container archive entries options) w
    | Err e =>
        if rt_listensToArchive rt then (Fulfilled (Err e), w)
        else die (UncaughtException e) w
    end.

(** [await container.putArchive(archive, ...)]: as [await], with the
    archive read between the two turns. *)
Definition copyFileToContainer (container : Container)
    (localFilePath containerFilePath : string) : Async unit :=
  let archive := archiveOf localFilePath in
  emit (EvRequest (ContainerPutArchive container archive {| path := containerFilePath |})) ;;
  turn ;;
  res <- sendArchive container archive {| path := containerFilePath |} ;;
  turn ;;
  settle res.

(** *** The main script, from the creation of the container on
        (app.js 199-229)

    What precedes (flags, prompts, the generated build script) reaches
    this phase as [dryRun] and [environment]. *)

Definition baseImage : string := "node:latest".
Definition buildDirectory : string := "./build/".
Definition containerHome : string := "/app/".
Definition buildScriptPath : string := (buildDirectory ++ "build.sh")%string.

(** app.js 215-222: start the container and run the build in it. *)
Definition runBuild (container : Container) : Async unit :=
  startContainer container ;;
  console_log ("Container " ++ id container ++ " started.") ;;
  runCommandInContainer container ["mkdir"; containerHome] ;;
  copyFileToContainer container buildScriptPath containerHome ;;
  copyFileToContainer container "./create_github_repo.sh" containerHome ;;
  runCommandInContainer container ["bash"; (containerHome ++ "create_github_repo.sh")%string].

(** app.js 224-228: stop and remove the container. *)
Definition tearDown (container : Container) : Async unit :=
  await (ContainerStop container None) (rt_stop rt container None) ;;
  console_log ("Container " ++ id container ++ " stopped.") ;;
  await (ContainerRemove container) (rt_remove rt container) ;;
  console_log ("Container " ++ id container ++ " removed.").

Definition main (dryRun : bool) (environment : list string) : Async unit :=
  container <- createContainer baseImage environment ;;
  console_log ("Container " ++ id container ++ " created.") ;;
  if dryRun then
    console_log "Dry run, not starting container. To debug, run:" ;;
    console_log "-----" ;;
    (* the next template literal reads [dockerTag], which is declared nowhere *)
    throw "ReferenceError: dockerTag is not defined"
  else
    runBuild container ;;
    tearDown container.

End Invocation.

(** ** A sample runtime

    An endpoint that answers the way the Docker engine does through
    dockerode: [stop] on a container that is not running is answered
    304, which dockerode reports as an error; [exec] needs a running
    container; [putArchive] listens to the archive stream and fails
    with the stream's error. *)

Definition noSuchContainer : error := "(HTTP code 404) no such container".
Definition alreadyStopped : error := "(HTTP code 304) container already stopped".
Definition alreadyStarted : error := "(HTTP code 304) container already started".
Definition notRunning : error := "(HTTP code 409) container is not running".
Definition stillRunning : error := "(HTTP code 409) cannot remove a running container".
Definition dockerLike : Runtime := {|
  rt_createContainer := fun _ w =>
    match container_state w with
    | NotCreated => (Ok {| id := "c0ffee" |}, Created)
    | s => (Err "(HTTP code 409) conflict", s)
    end;
  rt_start := fun _ w =>
    match container_state w with
    | Created | Stopped => (Ok tt, Running)
    | Running => (Err alreadyStarted, Running)
    | s => (Err noSuchContainer, s)
    end;
  rt_stop := fun _ _ w =>
    match container_state w with
    | Running => (Ok tt, Stopped)
    | Created => (Err alreadyStopped, Created)
    | Stopped => (Err alreadyStopped, Stopped)
    | s => (Err noSuchContainer, s)
    end;
  rt_remove := fun _ w =>
    match container_state w with
    | Created | Stopped => (Ok tt, Removed)
    | Running => (Err stillRunning, Running)
    | s => (Err noSuchContainer, s)
    end;
  rt_logs := fun _ _ w =>
    match container_state w with
    | NotCreated | Removed => (Err noSuchContainer, container_state w)
    | s => (Ok {| on_throws := None; events := [] |}, s)
    end;
  rt_exec := fun _ o w =>
    match container_state w with
    | Running => (Ok {| exec_id := join " " (exec_Cmd o) |}, Running)
    | NotCreated | Removed => (Err noSuchContainer, container_state w)
    | s => (Err notRunning, s)
    end;
  rt_exec_start := fun x _ w =>
    match container_state w with
    | Running => (Ok {| on_throws := None; events := [Data ("$ " ++ exec_id x); End] |}, Running)
    | NotCreated | Removed => (Err noSuchContainer, container_state w)
    | s => (Err notRunning, s)
    end;
  rt_putArchive := fun _ _ _ _ w =>
    match container_state w with
    | NotCreated | Removed => (Err noSuchContainer, container_state w)
    | s => (Ok tt, s)
    end;
  rt_listensToArchive := true
|}.

(** No interrupt ever arrives. *)
Definition quiet : nat -> bool := fun _ => false.

(** An interrupt arrives during turn [n] only. *)
Definition interruptAt (n : nat) : nat -> bool := Nat.eqb n.

(** An interrupt arrives during each of the listed turns. *)
Definition interruptsAt (turns : list nat) : nat -> bool :=
  fun n => existsb (Nat.eqb n) turns.

(** The world in which the main script begins its container phase. *)
Definition freshWorld (files : list string) : World :=
  {| container_state := NotCreated; localFiles := files;
     sigintListeners := []; clock := 0; trace := [] |}.

Definition scriptFiles : list string :=
  ["./build/build.sh"; "./create_github_repo.sh"].

Definition c0ffee : Container := {| id := "c0ffee" |}.

(** The world once [startContainer] has run against the sample runtime. *)
Definition runningWorld (files : list string) : World :=
  {| container_state := Running; localFiles := files;
     sigintListeners := [ForceStop c0ffee]; clock := 6; trace := [] |}.

(** The world while the start request is in flight. *)
Definition createdWorld : World :=
  {| container_state := Created; localFiles := scriptFiles;
     sigintListeners := [ForceStop c0ffee]; clock := 2; trace := [] |}.

(** The world in which the last phase begins after a forced stop. *)
Definition stoppedWorld : World :=
  {| container_state := Stopped; localFiles := scriptFiles;
     sigintListeners := [ForceStop c0ffee]; clock := 23; trace := [] |}.


(** The sample runtime with a given stream attached to every exec
    session. *)
Definition withExecStream (src : StreamSource) (rt : Runtime) : Runtime :=
  {| rt_createContainer := rt_createContainer rt;
     rt_start := rt_start rt;
     rt_stop := rt_stop rt;
     rt_remove := rt_remove rt;
     rt_logs := rt_logs rt;
     rt_exec := rt_exec rt;
     rt_exec_start := fun _ _ w => (Ok src, container_state w);
     rt_putArchive := rt_putArchive rt;
     rt_listensToArchive := rt_listensToArchive rt |}.

(** A stream that breaks after a first chunk. *)
Definition brokenStream : StreamSource :=
  {| on_throws := None; events := [Data "partial"; Error "socket hang up"] |}.



(** * Vocabulary of the statements *)

(** A stop request with [force] set. *)
Definition forcedStop (r : request) : Prop :=
  match r with
  | ContainerStop _ (Some o) => force o = true
  | _ => False
  end.

(** The events a signal and the interrupt listener leave in the trace. *)
Definition interruptEvent (e : event) : Prop :=
  match e with
  | EvSIGINT => True
  | EvLog line => line = "Caught interrupt signal"
  | EvRequest r => forcedStop r
  | _ => False
  end.

(** [appends P m]: whatever happens, a run of [m] only adds events
    satisfying [P] to the trace. *)
Definition appends {A} (P : event -> Prop) (m : Async A) : Prop :=
  forall w, exists t, trace (snd (m w)) = trace w ++ t /\ Forall P t.

(** [keeps m]: a run of [m] leaves the local files alone and never
    removes an interrupt listener. *)
Definition keeps {A} (m : Async A) : Prop :=
  forall w, localFiles (snd (m w)) = localFiles w /\
            exists hs, sigintListeners (snd (m w)) = sigintListeners w ++ hs.

(** [begins e P m]: a run of [m] first adds [e] to the trace, then
    only events satisfying [P]. *)
Definition begins {A} (e : event) (P : event -> Prop) (m : Async A) : Prop :=
  forall w, exists t, trace (snd (m w)) = trace w ++ e :: t /\ Forall P t.

(** [settles m]: [m] neither rejects nor stays suspended; it is
    fulfilled unless the process ends. *)
Definition settles {A} (m : Async A) : Prop :=
  forall w, match fst (m w) with
            | Rejected _ | Suspended => False
            | _ => True
            end.

(** Events other than those of the awaited stream. *)
Definition notEmit (e : event) : Prop :=
  match e with
  | EvEmit _ => False
  | _ => True
  end.

Definition isResolveWait (l : listener) : bool :=
  match l with ResolveWait => true | _ => false end.

(** The promise after the listeners of an event have run. *)
Definition settledBy (ls : list listener) (p : promise) : promise :=
  if existsb isResolveWait ls then resolve p else p.

(** A stream on which the completion listener, and no other resolver,
    waits for "end". *)
Definition awaitsEnd (s : Stream) : Prop :=
  forall name, existsb isResolveWait (listenersFor s name) = String.eqb name "end".

(** A stream nobody waits on yet. *)
Definition unawaited (s : Stream) : Prop :=
  existsb isResolveWait (map snd (listeners s)) = false.

(** What the exec stream leaves in the trace when it delivers the
    given chunks and then ends. *)
Definition chunkEvents (chunks : list string) : list event :=
  flat_map (fun c => [EvEmit (Data c); EvLog ("Command output: " ++ c)]) chunks.

(** The request of the interrupt listener of [c]. *)
Definition forcedStopOf (c : Container) : event :=
  EvRequest (ContainerStop c (Some {| force := true |})).

(** What a listener leaves in the trace when it is called. *)
Definition handlerEvents (h : handler) : list event :=
  match h with
  | ForceStop c => [EvLog "Caught interrupt signal"; forcedStopOf c]
  end.

(** [answered c t]: every interrupt signal in [t] is followed by a
    forced stop request on [c]. *)
Fixpoint answered (c : Container) (t : list event) : Prop :=
  match t with
  | [] => True
  | EvSIGINT :: t' => In (forcedStopOf c) t' /\ answered c t'
  | _ :: t' => answered c t'
  end.

(** Events other than the arrival of a signal. *)
Definition notSIGINT (e : event) : Prop :=
  match e with
  | EvSIGINT => False
  | _ => True
  end.

(** [answers c m]: in a run of [m] that begins with the listener of
    [c] registered, every interrupt is answered. *)
Definition answers {A} (c : Container) (m : Async A) : Prop :=
  forall w, In (ForceStop c) (sigintListeners w) ->
            exists t, trace (snd (m w)) = trace w ++ t /\ answered c t.

(** [registers c m]: after a run of [m] the listener of [c] is
    registered. *)
Definition registers {A} (c : Container) (m : Async A) : Prop :=
  forall w, In (ForceStop c) (sigintListeners (snd (m w))).

(** [opensGuarded c m]: a run of [m] begins with the registration of
    the listener of [c], followed at once by the request to start [c];
    every interrupt after that is answered. *)
Definition opensGuarded {A} (c : Container) (m : Async A) : Prop :=
  forall w, exists t,
    trace (snd (m w)) =
    trace w ++ EvOnSIGINT (ForceStop c) :: EvRequest (ContainerStart c) :: t
    /\ answered c t.

(** What follows the start request in [startContainer]. *)
Definition afterStart (rt : Runtime) (interrupts : nat -> bool)
    (container : Container) : Async Stream :=
  src <- await rt interrupts (ContainerLogs container logsOptions)
               (rt_logs rt container logsOptions) ;;
  stream <- sync (on (newStream src) "data" LogChunk) ;;
  ret stream.

(** A runtime that stops a running container when asked to. *)
Definition honoursStop (rt : Runtime) : Prop :=
  forall c o w, container_state w = Running -> rt_stop rt c o w = (Ok tt, Stopped).

(** The world the runtime sees when the listener's request reaches it. *)
Definition atForcedStop (c : Container) (w : World) : World :=
  record (forcedStopOf c) (record (EvLog "Caught interrupt signal") (record EvSIGINT w)).

(** Events of the last phase of the script: the plain stop and the
    removal. *)
Definition notTearDown (e : event) : Prop :=
  match e with
  | EvRequest (ContainerStop _ None) => False
  | EvRequest (ContainerRemove _) => False
  | _ => True
  end.

(** The world in which the runtime answers the request [r] issued in
    [w]: one turn later. *)
Definition arrival (rt : Runtime) (interrupts : nat -> bool) (r : request) (w : World)
    : World :=
  snd (turn rt interrupts (record (EvRequest r) w)).

(** What the main script does between the creation of the container
    and the last phase (app.js 204-222). *)
Definition beforeTearDown (rt : Runtime) (interrupts : nat -> bool) (dryRun : bool)
    (container : Container) : Async unit :=
  if dryRun then
    console_log "Dry run, not starting container. To debug, run:" ;;
    console_log "-----" ;;
    throw "ReferenceError: dockerTag is not defined"
  else
    runBuild rt interrupts container.

(** [subsequence l1 l2]: the lines of [l1] occur in [l2], in the same
    order. *)
Fixpoint subsequence (l1 l2 : list string) : Prop :=
  match l2 with
  | [] => l1 = []
  | y :: l2' =>
      match l1 with
      | [] => True
      | x :: l1' => (x = y /\ subsequence l1' l2') \/ subsequence l1 l2'
      end
  end.

(** ** Statements of the specification that the code does not meet *)

(** C2 as the specification states it, for its last part: the
    interrupt listener does not end the process. *)
Definition listener_never_ends_process : Prop :=
  forall rt container w,
    In (ForceStop container) (sigintListeners w) ->
    forall c, fst (deliverSIGINT rt w) <> Crashed c.



(** C5 as the specification states it: on a container that has
    already stopped, the stop of the last phase counts as a success,
    so the script reports the container stopped and goes on. *)
Definition stop_on_stopped_is_success : Prop :=
  forall rt container w,
    container_state w = Stopped ->
    exists t,
      trace (snd (tearDown rt quiet container w)) =
      trace w ++ EvRequest (ContainerStop container None)
              :: EvLog ("Container " ++ id container ++ " stopped.") :: t.

(** C6 as the specification states it: when the script fails after
    the container was created, stop and remove have been requested on
    it all the same. *)
Definition failure_still_cleans_up : Prop :=
  forall rt interrupts dryRun environment w container w1 e,
    createContainer rt interrupts baseImage environment w = (Fulfilled container, w1) ->
    fst (main rt interrupts dryRun environment w) = Rejected e ->
    In (ContainerStop container None)
       (requestsOf (trace (snd (main rt interrupts dryRun environment w))))
    /\ In (ContainerRemove container)
          (requestsOf (trace (snd (main rt interrupts dryRun environment w)))).

(** C7 as the specification states it, for the first half: a signal
    that finds the container created and not started does not end the
    invocation. *)
Definition interrupt_while_created_is_harmless : Prop :=
  forall rt w,
    container_state w = Created ->
    forall c, fst (deliverSIGINT rt w) <> Crashed c.

(** * Post-processing of the generated script (app.js 133-141)

    [applyCorrections] is a chain of six [replaceAll] with regular
    expressions that carry the flags [m] and [g] and begin with [^]:
    each one matches at the start of a line and, when it ends with
    [$], up to the end of that line.  A line ends at a line terminator of ECMAScript:
    line feed, carriage return, U+2028 or U+2029. *)

(** A JavaScript string: its UTF-16 code units. *)
Definition jsString : Type := list N.

(** The code units of a string of ASCII characters. *)
Definition units (s : string) : jsString :=
  map N_of_ascii (list_ascii_of_string s).

Definition isLineTerminator (u : N) : bool :=
  N.eqb u 10 || N.eqb u 13 || N.eqb u 8232 || N.eqb u 8233.

(** A text as the anchors [^] and [$] see it: the first line, then
    every line terminator with the line that follows it. *)
Fixpoint splitLines (s : jsString) : jsString * list (N * jsString) :=
  match s with
  | [] => ([], [])
  | u :: s' =>
      let '(l, rest) := splitLines s' in
      if isLineTerminator u then ([], (u, l) :: rest) else (u :: l, rest)
  end.

Definition joinLines (t : jsString * list (N * jsString)) : jsString :=
  fst t ++ flat_map (fun ul => fst ul :: snd ul) (snd t).

Definition linesOf (s : jsString) : list jsString :=
  fst (splitLines s) :: map snd (snd (splitLines s)).

Definition terminatorsOf (s : jsString) : list N :=
  map fst (snd (splitLines s)).

(** The literal [pre] matches at the start of the line. *)
Fixpoint startsWith (pre l : jsString) : bool :=
  match pre, l with
  | [], _ => true
  | p :: pre', u :: l' => N.eqb p u && startsWith pre' l'
  | _ :: _, [] => false
  end.

(** On one line: the literal [pre] at the start of the line replaced
    by [new].  This is the replacement of [^pre] by [new], and also of
    [^pre] followed by a group for the rest of the line by [new]
    followed by [$1]. *)
Definition replaceLineStart (pre new l : jsString) : jsString :=
  if startsWith pre l then new ++ skipn (length pre) l else l.

(** On one line: [^pre] and the rest of the line, up to [$],
    replaced by the empty string. *)
Definition eraseLine (pre l : jsString) : jsString :=
  if startsWith pre l then [] else l.

(** [s.replaceAll(re, ...)] for an expression [re] with the flags [m]
    and [g] that matches at most once per line, at its start: the
    replacement is made on every line, the terminators stay. *)
Definition onLines (f : jsString -> jsString) (s : jsString) : jsString :=
  joinLines (f (fst (splitLines s)),
             map (fun ul => (fst ul, f (snd ul))) (snd (splitLines s))).

(** [git commit -m] followed by a space and a double quote. *)
Definition commitMessage : jsString := units "git commit -m " ++ [34%N].

(** The same, followed by the construction worker with a skin tone
    modifier (U+1F477 U+1F3FC, two surrogate pairs) and a space. *)
Definition commitMessageMarked : jsString :=
  commitMessage ++ [55357; 56439; 55356; 57340; 32]%N.

Definition applyCorrections (buildScript : jsString) : jsString :=
  onLines (replaceLineStart (units "git commit ") (units "git commit -a "))
    (onLines (replaceLineStart commitMessage commitMessageMarked)
       (onLines (eraseLine (units "git remote "))
          (onLines (eraseLine (units "git push "))
             (onLines (replaceLineStart (units "echo ") (units "echo -e "))
                (onLines (replaceLineStart (units "npx ") (units "npx --yes "))
                   buildScript))))).

(** ** Vocabulary of the further statements *)

(** A line, as [splitLines] produces them: no terminator inside. *)
Definition oneLine (l : jsString) : Prop :=
  Forall (fun u => isLineTerminator u = false) l.

(** The six replacements on one line, in the order of the chain. *)
Definition correctLine (l : jsString) : jsString :=
  replaceLineStart (units "git commit ") (units "git commit -a ")
    (replaceLineStart commitMessage commitMessageMarked
       (eraseLine (units "git remote ")
          (eraseLine (units "git push ")
             (replaceLineStart (units "echo ") (units "echo -e ")
                (replaceLineStart (units "npx ") (units "npx --yes ") l))))).

(** A line that begins with none of the literals the corrections look
    for. *)
Definition untouched (l : jsString) : Prop :=
  startsWith (units "npx ") l = false /\
  startsWith (units "echo ") l = false /\
  startsWith (units "git push ") l = false /\
  startsWith (units "git remote ") l = false /\
  startsWith (units "git commit ") l = false.

(** A script of three lines for the examples. *)
Definition sampleScript : jsString :=
  units "npx create-react-app x" ++ [10%N] ++
  units "git commit -m " ++ [34%N] ++ units "init" ++ [34; 10]%N ++
  units "git push origin main".

(** The requests of the script itself: all but the forced stops of the
    interrupt listener. *)
Definition isForcedStop (r : request) : bool :=
  match r with
  | ContainerStop _ (Some o) => force o
  | _ => false
  end.

Definition plainRequests (t : list event) : list request :=
  filter (fun r => negb (isForcedStop r)) (requestsOf t).

(** Events that are not requests of the script itself. *)
Definition notPlainRequest (e : event) : Prop :=
  match e with
  | EvRequest r => isForcedStop r = true
  | _ => True
  end.

(** [silent m]: a run of [m] registers no interrupt listener. *)
Definition silent {A} (m : Async A) : Prop :=
  forall w, sigintListeners (snd (m w)) = sigintListeners w.

(** The sample runtime with an exec stream of two chunks and "end". *)
Definition twoChunks : StreamSource :=
  {| on_throws := None; events := [Data "one"; Data "two"; End] |}.

(** The sample runtime with an exec stream that never ends. *)
Definition endless : StreamSource :=
  {| on_throws := None; events := [Data "one"; Data "two"] |}.

(** * Verification *)

(** ** Runs of monadic programs *)

Lemma run_bind {A B} (m : Async A) (k : A -> Async B) (w : World) :
  (x <- m ;; k x) w =
  match m w with
  | (Fulfilled a, w') => k a w'
  | (Rejected e, w') => (Rejected e, w')
  | (Suspended, w') => (Suspended, w')
  | (Crashed c, w') => (Crashed c, w')
  end.
Proof. reflexivity. Qed.

Lemma run_ret {A} (a : A) (w : World) : (ret a : Async A) w = (Fulfilled a, w).
Proof. reflexivity. Qed.

Create HintDb async.

Lemma appends_weaken {A} (P Q : event -> Prop) (m : Async A) :
  (forall e, P e -> Q e) -> appends P m -> appends Q m.
Proof.
  intros HPQ Hm w. destruct (Hm w) as (t & Ht & HP).
  exists t. split; [exact Ht|]. eapply Forall_impl; eauto.
Qed.

Lemma appends_ret {A} P (a : A) : appends P (ret a).
Proof. intros w. exists []. simpl. rewrite app_nil_r. auto. Qed.

Lemma appends_throw {A} P e : appends P (@throw A e).
Proof. intros w. exists []. simpl. rewrite app_nil_r. auto. Qed.

Lemma appends_suspend {A} P : appends P (@suspend A).
Proof. intros w. exists []. simpl. rewrite app_nil_r. auto. Qed.

Lemma appends_die {A} P c : appends P (@die A c).
Proof. intros w. exists []. simpl. rewrite app_nil_r. auto. Qed.

Lemma appends_emit (P : event -> Prop) e : P e -> appends P (emit e).
Proof. intros He w. exists [e]. simpl. auto. Qed.

Lemma appends_sync {A} P (r : reply A) : appends P (sync r).
Proof. destruct r; [apply appends_ret | apply appends_throw]. Qed.

Lemma appends_perform {A} P (act : endpoint A) : appends P (perform act).
Proof.
  intros w. exists []. unfold perform. destruct (act w) as [r s]. simpl.
  rewrite app_nil_r. auto.
Qed.

Lemma appends_bind {A B} P (m : Async A) (k : A -> Async B) :
  appends P m -> (forall a, appends P (k a)) -> appends P (x <- m ;; k x).
Proof.
  intros Hm Hk w. rewrite run_bind.
  destruct (Hm w) as (t & Ht & HP).
  destruct (m w) as [[a|e| |c] w1]; simpl in Ht;
    try solve [exists t; simpl; split; assumption].
  destruct (Hk a w1) as (t' & Ht' & HP').
  exists (t ++ t'). rewrite Ht', Ht, app_assoc. split; [reflexivity|].
  apply Forall_app; auto.
Qed.

Lemma appends_forEach {A} P (f : A -> Async unit) (l : list A) :
  (forall x, appends P (f x)) -> appends P (forEach f l).
Proof.
  intros Hf. induction l as [|x l IH]; simpl.
  - apply appends_ret.
  - apply appends_bind; auto.
Qed.

#[export] Hint Resolve appends_ret appends_throw appends_suspend appends_die
  appends_sync appends_perform appends_bind appends_forEach : async.

Lemma keeps_ret {A} (a : A) : keeps (ret a).
Proof. intros w. simpl. split; [reflexivity|]. exists []. now rewrite app_nil_r. Qed.

Lemma keeps_throw {A} e : keeps (@throw A e).
Proof. intros w. simpl. split; [reflexivity|]. exists []. now rewrite app_nil_r. Qed.

Lemma keeps_suspend {A} : keeps (@suspend A).
Proof. intros w. simpl. split; [reflexivity|]. exists []. now rewrite app_nil_r. Qed.

Lemma keeps_die {A} c : keeps (@die A c).
Proof. intros w. simpl. split; [reflexivity|]. exists []. now rewrite app_nil_r. Qed.

Lemma keeps_emit e : keeps (emit e).
Proof. intros w. simpl. split; [reflexivity|]. exists []. now rewrite app_nil_r. Qed.

Lemma keeps_sync {A} (r : reply A) : keeps (sync r).
Proof. destruct r; [apply keeps_ret | apply keeps_throw]. Qed.

Lemma keeps_perform {A} (act : endpoint A) : keeps (perform act).
Proof.
  intros w. unfold perform. destruct (act w) as [r s]. simpl.
  split; [reflexivity|]. exists []. now rewrite app_nil_r.
Qed.

Lemma keeps_process_on_SIGINT h : keeps (process_on_SIGINT h).
Proof. intros w. simpl. split; [reflexivity|]. now exists [h]. Qed.

Lemma keeps_bind {A B} (m : Async A) (k : A -> Async B) :
  keeps m -> (forall a, keeps (k a)) -> keeps (x <- m ;; k x).
Proof.
  intros Hm Hk w. rewrite run_bind.
  destruct (Hm w) as (Hf & hs & Hl).
  destruct (m w) as [[a|e| |c] w1]; simpl in Hf, Hl;
    try solve [simpl; split; [assumption | exists hs; assumption]].
  destruct (Hk a w1) as (Hf' & hs' & Hl').
  split; [congruence|]. exists (hs ++ hs'). rewrite Hl', Hl, app_assoc. reflexivity.
Qed.

Lemma keeps_forEach {A} (f : A -> Async unit) (l : list A) :
  (forall x, keeps (f x)) -> keeps (forEach f l).
Proof.
  intros Hf. induction l as [|x l IH]; simpl.
  - apply keeps_ret.
  - apply keeps_bind; auto.
Qed.

#[export] Hint Resolve keeps_ret keeps_throw keeps_suspend keeps_die keeps_emit
  keeps_sync keeps_perform keeps_process_on_SIGINT keeps_bind keeps_forEach : async.

Lemma begins_bind {A B} e P (m : Async A) (k : A -> Async B) :
  begins e P m -> (forall a, appends P (k a)) -> begins e P (x <- m ;; k x).
Proof.
  intros Hm Hk w. rewrite run_bind.
  destruct (Hm w) as (t & Ht & HP).
  destruct (m w) as [[a|err| |c] w1]; simpl in Ht;
    try solve [exists t; simpl; split; assumption].
  destruct (Hk a w1) as (t' & Ht' & HP').
  exists (t ++ t'). rewrite Ht', Ht, <- app_assoc. split; [reflexivity|].
  apply Forall_app; auto.
Qed.

Lemma begins_emit_then {B} e P (k : Async B) :
  appends P k -> begins e P (emit e ;; k).
Proof.
  intros Hk w. rewrite run_bind. simpl.
  destruct (Hk (record e w)) as (t & Ht & HP).
  exists t. rewrite Ht. simpl. rewrite <- app_assoc. auto.
Qed.

Lemma begins_weaken {A} e (P Q : event -> Prop) (m : Async A) :
  (forall x, P x -> Q x) -> begins e P m -> begins e Q m.
Proof.
  intros HPQ Hm w. destruct (Hm w) as (t & Ht & HP).
  exists t. split; [exact Ht|]. eapply Forall_impl; eauto.
Qed.

Lemma begins_appends {A} e (P : event -> Prop) (m : Async A) :
  P e -> begins e P m -> appends P m.
Proof.
  intros He Hm w. destruct (Hm w) as (t & Ht & HP).
  exists (e :: t). auto.
Qed.

Lemma settles_ret {A} (a : A) : settles (ret a).
Proof. intros w. exact I. Qed.

Lemma settles_die {A} c : settles (@die A c).
Proof. intros w. exact I. Qed.

Lemma settles_emit e : settles (emit e).
Proof. intros w. exact I. Qed.

Lemma settles_perform {A} (act : endpoint A) : settles (perform act).
Proof. intros w. unfold perform. destruct (act w). exact I. Qed.

Lemma settles_bind {A B} (m : Async A) (k : A -> Async B) :
  settles m -> (forall a, settles (k a)) -> settles (x <- m ;; k x).
Proof.
  intros Hm Hk w. rewrite run_bind. specialize (Hm w).
  destruct (m w) as [[a|e| |c] w1]; simpl in *; auto. apply Hk.
Qed.

Lemma settles_forEach {A} (f : A -> Async unit) (l : list A) :
  (forall x, settles (f x)) -> settles (forEach f l).
Proof.
  intros Hf. induction l as [|x l IH]; simpl.
  - apply settles_ret.
  - apply settles_bind; auto.
Qed.

#[export] Hint Resolve settles_ret settles_die settles_emit settles_perform
  settles_bind settles_forEach : async.

Section Facts.

Variable rt : Runtime.
Variable interrupts : nat -> bool.

(** *** The interrupt listener and the event loop *)

Lemma appends_handlerCall (P : event -> Prop) h :
  (forall e, interruptEvent e -> P e) -> appends P (handlerCall h).
Proof.
  intros HP. destruct h as [c]. unfold handlerCall, console_log.
  apply appends_bind; [|intros _]; apply appends_emit; apply HP; simpl; auto.
Qed.

Lemma appends_handlerReply P h : appends P (handlerReply rt h).
Proof.
  destruct h as [c]. unfold handlerReply.
  apply appends_bind; [apply appends_perform|].
  intros [u|e]; auto with async.
Qed.

Lemma appends_deliverSIGINT (P : event -> Prop) :
  (forall e, interruptEvent e -> P e) -> appends P (deliverSIGINT rt).
Proof.
  intros HP. unfold deliverSIGINT.
  apply appends_bind; [apply appends_emit; apply HP; exact I|].
  intros _ w. destruct (sigintListeners w) as [|h hs] eqn:E.
  - apply appends_die.
  - revert w E. generalize (h :: hs). intros l w _.
    apply appends_bind.
    + apply appends_forEach. intros x. now apply appends_handlerCall.
    + intros _. apply appends_forEach. intros x. apply appends_handlerReply.
Qed.

Lemma appends_turn (P : event -> Prop) :
  (forall e, interruptEvent e -> P e) -> appends P (turn rt interrupts).
Proof.
  intros HP w. unfold turn. destruct (interrupts (clock w)).
  - apply (appends_deliverSIGINT P HP (advance w)).
  - exists []. simpl. rewrite app_nil_r. auto.
Qed.

Lemma keeps_handlerCall h : keeps (handlerCall h).
Proof. destruct h. unfold handlerCall, console_log. auto with async. Qed.

Lemma keeps_handlerReply h : keeps (handlerReply rt h).
Proof.
  destruct h. unfold handlerReply. apply keeps_bind; [apply keeps_perform|].
  intros [u|e]; auto with async.
Qed.

Lemma keeps_deliverSIGINT : keeps (deliverSIGINT rt).
Proof.
  unfold deliverSIGINT. apply keeps_bind; [apply keeps_emit|]. intros _.
  assert (H : forall l, keeps (match l with
                               | [] => die KilledBySIGINT
                               | _ => forEach handlerCall l ;; forEach (handlerReply rt) l
                               end : Async unit)).
  { intros [|h hs]; [apply keeps_die|].
    apply keeps_bind; [apply keeps_forEach, keeps_handlerCall|].
    intros _. apply keeps_forEach, keeps_handlerReply. }
  intros w. specialize (H (sigintListeners w) w).
  destruct (sigintListeners w); exact H.
Qed.

Lemma keeps_turn : keeps (turn rt interrupts).
Proof.
  intros w. unfold turn. destruct (interrupts (clock w)).
  - apply (keeps_deliverSIGINT (advance w)).
  - simpl. split; [reflexivity|]. exists []. now rewrite app_nil_r.
Qed.

Lemma settles_deliverSIGINT : settles (deliverSIGINT rt).
Proof.
  unfold deliverSIGINT. apply settles_bind; [apply settles_emit|]. intros _ w.
  destruct (sigintListeners w) as [|h hs]; [exact I|].
  generalize (h :: hs). intros l. revert w.
  apply settles_bind.
  - apply settles_forEach. intros [c]. unfold handlerCall, console_log. auto with async.
  - intros _. apply settles_forEach. intros [c]. unfold handlerReply.
    apply settles_bind; [apply settles_perform|]. intros [u|e]; auto with async.
Qed.

(** A turn is fulfilled unless the process ends in it. *)
Lemma settles_turn : settles (turn rt interrupts).
Proof.
  intros w. unfold turn. destruct (interrupts (clock w)).
  - apply settles_deliverSIGINT.
  - exact I.
Qed.

(** *** Requests *)

Lemma appends_await_rest {A} (P : event -> Prop) (act : endpoint A) :
  (forall e, interruptEvent e -> P e) ->
  appends P (turn rt interrupts ;; res <- perform act ;; turn rt interrupts ;; settle res).
Proof.
  intros HP.
  apply appends_bind; [now apply appends_turn|]. intros _.
  apply appends_bind; [apply appends_perform|]. intros res.
  apply appends_bind; [now apply appends_turn|]. intros _.
  apply appends_sync.
Qed.

(** A request is the first thing an [await] leaves in the trace; what
    follows, if anything, is the interrupt listener's. *)
Lemma begins_await {A} (P : event -> Prop) r (act : endpoint A) :
  (forall e, interruptEvent e -> P e) ->
  begins (EvRequest r) P (await rt interrupts r act).
Proof.
  intros HP. unfold await. apply begins_emit_then. now apply appends_await_rest.
Qed.

Lemma appends_await {A} (P : event -> Prop) r (act : endpoint A) :
  (forall e, interruptEvent e -> P e) -> P (EvRequest r) ->
  appends P (await rt interrupts r act).
Proof.
  intros HP Hr. eapply begins_appends; [exact Hr|]. now apply begins_await.
Qed.

Lemma keeps_await {A} r (act : endpoint A) : keeps (await rt interrupts r act).
Proof.
  unfold await, settle.
  repeat (apply keeps_bind; [auto using keeps_turn with async|]; intros ?).
  apply keeps_sync.
Qed.

(** *** The archive of a copy *)

(** Reading the archive leaves nothing in the trace and touches
    neither the local files nor the listeners. *)
Lemma sendArchive_world container archive options w :
  trace (snd (sendArchive rt container archive options w)) = trace w /\
  localFiles (snd (sendArchive rt container archive options w)) = localFiles w /\
  sigintListeners (snd (sendArchive rt container archive options w)) = sigintListeners w.
Proof.
  unfold sendArchive, perform, die.
  destruct (packed (localFiles w) archive) as [entries|e].
  - destruct (rt_putArchive rt container archive entries options w). auto.
  - destruct (rt_listensToArchive rt); auto.
Qed.

Lemma appends_sendArchive P container archive options :
  appends P (sendArchive rt container archive options).
Proof.
  intros w. exists []. rewrite app_nil_r. split; [|constructor].
  apply sendArchive_world.
Qed.

Lemma keeps_sendArchive container archive options :
  keeps (sendArchive rt container archive options).
Proof.
  intros w. destruct (sendArchive_world container archive options w) as (_ & Hf & Hl).
  split; [exact Hf|]. exists []. now rewrite app_nil_r.
Qed.

End Facts.

(** When no interrupt arrives a turn only advances the clock, and an
    [await] is the runtime's reply. *)
Lemma turn_quiet rt w : turn rt quiet w = (Fulfilled tt, advance w).
Proof. reflexivity. Qed.

Lemma await_quiet {A} rt r (act : endpoint A) w :
  await rt quiet r act w =
  let w1 := advance (record (EvRequest r) w) in
  (match fst (act w1) with Ok a => Fulfilled a | Err e => Rejected e end,
   advance (set_state (snd (act w1)) w1)).
Proof.
  unfold await, perform. cbn.
  destruct (act (advance (record (EvRequest r) w))) as [[a|e] s]; reflexivity.
Qed.

(** ** The path functions *)

Example dirname_buildScript : dirname buildScriptPath = "./build".
Proof. reflexivity. Qed.

Example basename_buildScript : basename buildScriptPath = "build.sh".
Proof. reflexivity. Qed.

Example dirname_helperScript : dirname "./create_github_repo.sh" = ".".
Proof. reflexivity. Qed.

Example dirname_absolute : dirname "/foo/bar/baz/asdf/quux" = "/foo/bar/baz/asdf".
Proof. reflexivity. Qed.

Example basename_absolute : basename "/foo/bar/baz/asdf/quux.html" = "quux.html".
Proof. reflexivity. Qed.

Example dirname_root : dirname "/" = "/" /\ dirname "/a" = "/" /\ dirname "//a" = "//".
Proof. repeat split. Qed.

Example basename_trailing : basename "a///" = "a" /\ dirname "a///" = "." /\ basename "/" = "".
Proof. repeat split. Qed.


Lemma takeWhile_app_stop {A} (f : A -> bool) (l rest : list A) (x : A) :
  Forall (fun y => f y = true) l -> f x = false ->
  takeWhile f (l ++ x :: rest) = l.
Proof.
  intros Hl Hx. induction Hl as [|y l Hy Hl IH]; simpl.
  - now rewrite Hx.
  - now rewrite Hy, IH.
Qed.

Lemma dropWhile_app_stop {A} (f : A -> bool) (l rest : list A) (x : A) :
  Forall (fun y => f y = true) l -> f x = false ->
  dropWhile f (l ++ x :: rest) = x :: rest.
Proof.
  intros Hl Hx. induction Hl as [|y l Hy Hl IH]; simpl.
  - now rewrite Hx.
  - now rewrite Hy, IH.
Qed.



(** A path made of a directory, a separator and a file name splits
    back into the two. *)
Lemma path_split_chars (d f : list ascii) (c : ascii) :
  ~ In "/"%char (c :: f) ->
  last d "/"%char <> "/"%char ->
  let p := d ++ "/"%char :: c :: f in
  basename_chars p = c :: f /\ dirname_chars p = d.
Proof.
  intros Hf Hd p.
  assert (Hns : Forall (fun y => negb (isSlash y) = true) (rev (c :: f))).
  { apply Forall_forall. intros y Hy. apply in_rev in Hy.
    unfold isSlash. destruct (Ascii.eqb_spec y "/"%char); [subst; contradiction | reflexivity]. }
  assert (Hrev : rev p = rev (c :: f) ++ "/"%char :: rev d).
  { unfold p. rewrite rev_app_distr. simpl. rewrite <- !app_assoc. reflexivity. }
  assert (Hhead : dropWhile isSlash (rev p) = rev p).
  { rewrite Hrev. remember (rev (c :: f)) as r eqn:Er.
    destruct r as [|y r'].
    - apply (f_equal (@length _)) in Er. rewrite length_rev in Er. discriminate.
    - inversion Hns as [|? ? Hy _]; subst. simpl.
      destruct (isSlash y); [discriminate | reflexivity]. }
  split.
  - unfold basename_chars. rewrite Hhead, Hrev.
    rewrite takeWhile_app_stop; auto. apply rev_involutive.
  - unfold dirname_chars. fold p. rewrite Hhead, Hrev.
    rewrite dropWhile_app_stop; auto.
    destruct d as [|c0 d'].
    + simpl in Hd. contradiction.
    + unfold p. simpl app at 1. cbv iota.
      destruct (rev (c0 :: d')) as [|x l] eqn:E.
      * apply (f_equal (@length _)) in E. rewrite length_rev in E. discriminate.
      * rewrite <- E.
        assert (Hroot : isSlash c0 && Nat.eqb (length (rev (c0 :: d'))) 1 = false).
        { rewrite length_rev. destruct d' as [|c1 d'']; simpl.
          - simpl in Hd. unfold isSlash.
            destruct (Ascii.eqb_spec c0 "/"%char); [contradiction | reflexivity].
          - apply andb_false_r. }
        rewrite Hroot. apply rev_involutive.
Qed.

(** ** createContainer *)

(** C9. For every image tag and environment, [createContainer] issues
    one creation request whose options carry that image, that
    environment, [Tty] and [OpenStdin] set and the shell as command;
    nothing else enters the trace but what an interrupt listener adds,
    and without interrupts the call settles as the runtime replies. *)
Theorem createContainer_request rt interrupts tag environment w :
  let options := {| Image := tag; Env := environment; Tty := true;
                    Cmd := ["/bin/sh"]; OpenStdin := true |} in
  (exists t,
      trace (snd (createContainer rt interrupts tag environment w)) =
      trace w ++ EvRequest (DockerCreateContainer options) :: t
      /\ Forall interruptEvent t)
  /\ createContainer rt quiet tag environment w =
     (let w1 := advance (record (EvRequest (DockerCreateContainer options)) w) in
      (match fst (rt_createContainer rt options w1) with
       | Ok c => Fulfilled c
       | Err e => Rejected e
       end,
       advance (set_state (snd (rt_createContainer rt options w1)) w1))).
Proof.
  intros options. split.
  - apply (begins_await rt interrupts interruptEvent); auto.
  - unfold createContainer. apply await_quiet.
Qed.

(** C10. The command of the creation request is the constant
    [["/bin/sh"]], whatever the tag and the environment: the caller
    cannot choose it. *)
Theorem createContainer_entrypoint_fixed rt interrupts tag environment w :
  (exists o t,
      trace (snd (createContainer rt interrupts tag environment w)) =
      trace w ++ EvRequest (DockerCreateContainer o) :: t
      /\ Cmd o = ["/bin/sh"]
      /\ Forall interruptEvent t)
  /\ forall tag' environment',
      Cmd (createOptions tag environment) = Cmd (createOptions tag' environment').
Proof.
  split; [|reflexivity].
  destruct (begins_await rt interrupts interruptEvent
              (DockerCreateContainer (createOptions tag environment))
              (rt_createContainer rt (createOptions tag environment))
              (fun e H => H) w) as (t & Ht & HP).
  exists (createOptions tag environment), t. auto.
Qed.

(** ** copyFileToContainer *)

(** The request of a copy, whatever the local file system holds. *)
Lemma copyFileToContainer_begins rt interrupts container localFilePath containerFilePath :
  begins (EvRequest (ContainerPutArchive container (archiveOf localFilePath)
                                         {| path := containerFilePath |}))
         interruptEvent
         (copyFileToContainer rt interrupts container localFilePath containerFilePath).
Proof.
  unfold copyFileToContainer. apply begins_emit_then.
  apply appends_bind; [apply appends_turn; auto|]. intros _.
  apply appends_bind; [apply appends_sendArchive|]. intros res.
  apply appends_bind; [apply appends_turn; auto|]. intros _.
  apply appends_sync.
Qed.













(** ** waitForStreamEnd and runCommandInContainer *)

Lemma interruptEvent_notEmit e : interruptEvent e -> notEmit e.
Proof. destruct e; simpl; auto. Qed.

Lemma emittedOf_app t1 t2 : emittedOf (t1 ++ t2) = emittedOf t1 ++ emittedOf t2.
Proof. apply flat_map_app. Qed.

Lemma emittedOf_notEmit t : Forall notEmit t -> emittedOf t = [].
Proof.
  induction 1 as [|e t He _ IH]; [reflexivity|].
  destruct e; simpl in *; auto; contradiction.
Qed.

Lemma appends_emitted {A} (m : Async A) w :
  appends notEmit m -> emittedOf (trace (snd (m w))) = emittedOf (trace w).
Proof.
  intros Hm. destruct (Hm w) as (t & Ht & HP).
  rewrite Ht, emittedOf_app, (emittedOf_notEmit t HP). apply app_nil_r.
Qed.

Lemma resolve_idempotent p : resolve (resolve p) = resolve p.
Proof. destruct p; reflexivity. Qed.

Lemma runListeners_run ev ls : forall p w,
  exists t, runListeners ev p ls w =
            (Fulfilled (settledBy ls p),
             {| container_state := container_state w; localFiles := localFiles w;
                sigintListeners := sigintListeners w; clock := clock w;
                trace := trace w ++ t |})
            /\ Forall notEmit t.
Proof.
  induction ls as [|l ls IH]; intros p w.
  - exists []. rewrite app_nil_r. destruct w; split; [reflexivity | constructor].
  - destruct l; cbn -[append].
    + destruct (IH p (record (EvLog (payload ev)) w)) as (t & Ht & HP).
      exists (EvLog (payload ev) :: t). rewrite Ht. cbn -[append].
      rewrite <- app_assoc. split; [reflexivity|]. constructor; [exact I | assumption].
    + destruct (IH p (record (EvLog ("Command output: " ++ payload ev)) w)) as (t & Ht & HP).
      exists (EvLog ("Command output: " ++ payload ev) :: t). rewrite Ht. cbn -[append].
      rewrite <- app_assoc. split; [reflexivity|]. constructor; [exact I | assumption].
    + destruct (IH (resolve p) w) as (t & Ht & HP).
      exists t. rewrite Ht. split; [|assumption].
      unfold settledBy. destruct (existsb _ ls); [rewrite resolve_idempotent|]; reflexivity.
Qed.

Section ExecFacts.

Variable rt : Runtime.
Variable interrupts : nat -> bool.

Lemma turn_emitted w :
  emittedOf (trace (snd (turn rt interrupts w))) = emittedOf (trace w).
Proof. apply appends_emitted, appends_turn, interruptEvent_notEmit. Qed.

(** The wait is over only once "end" has been emitted, and at that
    very event. *)
Lemma awaitPromise_fulfilled s : awaitsEnd s -> forall evs w w',
  awaitPromise rt interrupts s evs PPending w = (Fulfilled tt, w') ->
  exists before after,
    evs = before ++ End :: after /\ ~ In End before /\
    emittedOf (trace w') = emittedOf (trace w) ++ before ++ [End].
Proof.
  intros Hs. induction evs as [|ev rest IH]; intros w w' Hrun.
  - discriminate Hrun.
  - cbn [awaitPromise] in Hrun. rewrite run_bind in Hrun.
    pose proof (turn_emitted w) as Hturn.
    destruct (turn rt interrupts w) as [[[]|e1| |c1] w1]; try discriminate Hrun.
    cbn [snd] in Hturn. rewrite run_bind in Hrun.
    unfold emitEvent in Hrun. rewrite run_bind in Hrun. cbn [emit] in Hrun.
    assert (Hemit : emittedOf (trace (record (EvEmit ev) w1)) = emittedOf (trace w) ++ [ev]).
    { cbn. rewrite emittedOf_app, Hturn. reflexivity. }
    pose proof (Hs (eventName ev)) as Hname.
    destruct (runListeners_run ev (listenersFor s (eventName ev)) PPending
                (record (EvEmit ev) w1)) as (t & Hls & Ht).
    set (w2 := {| container_state := container_state (record (EvEmit ev) w1);
                  localFiles := localFiles (record (EvEmit ev) w1);
                  sigintListeners := sigintListeners (record (EvEmit ev) w1);
                  clock := clock (record (EvEmit ev) w1);
                  trace := trace (record (EvEmit ev) w1) ++ t |}) in *.
    assert (Hw2 : emittedOf (trace w2) = emittedOf (trace w) ++ [ev]).
    { unfold w2. cbn [trace]. rewrite emittedOf_app, Hemit, (emittedOf_notEmit t Ht).
      apply app_nil_r. }
    destruct ev as [chunk| |err].
    + (* data *)
      rewrite Hls in Hrun. unfold settledBy in Hrun. rewrite Hname in Hrun.
      cbn [eventName String.eqb Ascii.eqb Bool.eqb] in Hrun.
      destruct (IH _ _ Hrun) as (before & after & Hevs & Hno & Hem).
      exists (Data chunk :: before), after. subst rest. split; [reflexivity|]. split.
      * intros [H|H]; [discriminate | contradiction].
      * rewrite Hem, Hw2, <- app_assoc. reflexivity.
    + (* end *)
      rewrite Hls in Hrun. unfold settledBy in Hrun. rewrite Hname in Hrun.
      cbn in Hrun. destruct rest; cbn in Hrun; inversion Hrun; subst w'.
      * exists [], []. split; [reflexivity|]. split; [intros []|]. exact Hw2.
      * exists [], (s0 :: rest). split; [reflexivity|]. split; [intros []|]. exact Hw2.
    + (* error *)
      destruct (listenersFor s (eventName (Error err))) eqn:El.
      * discriminate Hrun.
      * rewrite Hls in Hrun. unfold settledBy in Hrun. rewrite Hname in Hrun.
        cbn [eventName String.eqb Ascii.eqb Bool.eqb] in Hrun.
        destruct (IH _ _ Hrun) as (before & after & Hevs & Hno & Hem).
        exists (Error err :: before), after. subst rest. split; [reflexivity|]. split.
        -- intros [H|H]; [discriminate | contradiction].
        -- rewrite Hem, Hw2, <- app_assoc. reflexivity.
Qed.

End ExecFacts.

Lemma listenersFor_on s name l s' n :
  on s name l = Ok s' ->
  listenersFor s' n = listenersFor s n ++ (if String.eqb name n then [l] else []).
Proof.
  unfold on. destruct (on_throws (source s)); [discriminate|].
  intros H. inversion H; subst; clear H. unfold listenersFor. cbn [listeners].
  rewrite filter_app, map_app. cbn. destruct (String.eqb name n); reflexivity.
Qed.

Lemma existsb_listenersFor s n :
  unawaited s -> existsb isResolveWait (listenersFor s n) = false.
Proof.
  unfold unawaited, listenersFor. induction (listeners s) as [|[m l] ls IH]; cbn; auto.
  intros H. apply orb_false_iff in H as [Hl Hls].
  destruct (String.eqb m n); cbn; rewrite ?Hl; auto.
Qed.

Lemma awaitsEnd_on s s' :
  unawaited s -> on s "end" ResolveWait = Ok s' -> awaitsEnd s'.
Proof.
  intros Hs Hon n. rewrite (listenersFor_on _ _ _ _ n Hon), existsb_app.
  fold isResolveWait. rewrite (existsb_listenersFor s n Hs). cbn [orb].
  rewrite (String.eqb_sym n "end"). destruct (String.eqb "end" n); reflexivity.
Qed.

Lemma source_on s name l s' : on s name l = Ok s' -> source s' = source s.
Proof.
  unfold on. destruct (on_throws (source s)); [discriminate|].
  intros H. inversion H. reflexivity.
Qed.

Section WaitFacts.

Variable rt : Runtime.
Variable interrupts : nat -> bool.

(** The completion wait on any stream nobody awaits yet: fulfilled
    only by the stream's "end". *)
Lemma waitForStreamEnd_fulfilled stream w w' :
  unawaited stream ->
  waitForStreamEnd rt interrupts stream w = (Fulfilled tt, w') ->
  exists before after,
    events (source stream) = before ++ End :: after /\ ~ In End before /\
    emittedOf (trace w') = emittedOf (trace w) ++ before ++ [End].
Proof.
  intros Hs. unfold waitForStreamEnd.
  destruct (on stream "end" ResolveWait) as [stream'|err] eqn:Hon.
  - rewrite (source_on _ _ _ _ Hon).
    apply awaitPromise_fulfilled. eapply awaitsEnd_on; eauto.
  - destruct (events (source stream)); discriminate.
Qed.

(** A fulfilled [await] carries the value of the runtime's reply. *)
Lemma await_fulfilled {A} r (act : endpoint A) w a w' :
  await rt interrupts r act w = (Fulfilled a, w') ->
  exists w1, fst (act w1) = Ok a.
Proof.
  unfold await. rewrite run_bind. cbn [emit]. rewrite run_bind.
  destruct (turn rt interrupts (record (EvRequest r) w)) as [[[]|e1| |c1] w1];
    try discriminate.
  rewrite run_bind. unfold perform at 1.
  destruct (act w1) as [res s] eqn:Hact. rewrite run_bind.
  destruct (turn rt interrupts (set_state s w1)) as [[[]|e2| |c2] w2];
    try discriminate.
  destruct res as [a'|e']; cbn; intros H; inversion H; subst.
  exists w1. rewrite Hact. reflexivity.
Qed.

Lemma await_emitted {A} r (act : endpoint A) w :
  emittedOf (trace (snd (await rt interrupts r act w))) = emittedOf (trace w).
Proof.
  apply appends_emitted, appends_await; [apply interruptEvent_notEmit | exact I].
Qed.

End WaitFacts.

(** C1. For every container handle and command, when
    [runCommandInContainer] returns, the stream the runtime attached
    to the exec session has emitted "end": the events emitted during
    the call are the stream's events up to its first "end", which is
    the last of them.  A call on a stream that has not emitted "end"
    yet has not returned. *)
Theorem runCommandInContainer_returns_after_end rt interrupts container command w w' :
  runCommandInContainer rt interrupts container command w = (Fulfilled tt, w') ->
  exists exec wx ws src before after,
    fst (rt_exec rt container (execOptions command) wx) = Ok exec /\
    fst (rt_exec_start rt exec execStartOptions ws) = Ok src /\
    events src = before ++ End :: after /\
    ~ In End before /\
    emittedOf (trace w') = emittedOf (trace w) ++ before ++ [End].
Proof.
  unfold runCommandInContainer. rewrite run_bind.
  pose proof (await_emitted rt interrupts (ContainerExec container (execOptions command))
                (rt_exec rt container (execOptions command)) w) as Hem1.
  destruct (await rt interrupts (ContainerExec container (execOptions command)) _ w)
    as [[exec|e1| |c1] w1] eqn:E1; try discriminate.
  apply await_fulfilled in E1 as (wx & Hx). cbn [snd] in Hem1.
  rewrite run_bind.
  pose proof (await_emitted rt interrupts (ExecStart exec execStartOptions)
                (rt_exec_start rt exec execStartOptions) w1) as Hem2.
  destruct (await rt interrupts (ExecStart exec execStartOptions) _ w1)
    as [[src|e2| |c2] w2] eqn:E2; try discriminate.
  apply await_fulfilled in E2 as (ws & Hsrc). cbn [snd] in Hem2.
  rewrite run_bind.
  destruct (on (newStream src) "data" LogCommandOutput) as [stream|err] eqn:Hon;
    [|discriminate].
  cbn [sync]. rewrite run_ret. intros Hwait.
  apply waitForStreamEnd_fulfilled in Hwait.
  - destruct Hwait as (before & after & Hev & Hno & Hem).
    exists exec, wx, ws, src, before, after.
    rewrite (source_on _ _ _ _ Hon) in Hev. cbn in Hev.
    rewrite Hem, Hem2, Hem1. auto.
  - unfold on in Hon. cbn in Hon. destruct (on_throws src); [discriminate|].
    inversion Hon. reflexivity.
Qed.

Lemma runCommandInContainer_returns_after_end_witness :
  let run := runCommandInContainer dockerLike quiet c0ffee ["mkdir"; "/app/"]
               (runningWorld scriptFiles) in
  run = (Fulfilled tt, snd run) /\
  exists exec wx ws src before after,
    fst (rt_exec dockerLike c0ffee (execOptions ["mkdir"; "/app/"]) wx) = Ok exec /\
    fst (rt_exec_start dockerLike exec execStartOptions ws) = Ok src /\
    events src = before ++ End :: after /\
    ~ In End before /\
    emittedOf (trace (snd run)) =
    emittedOf (trace (runningWorld scriptFiles)) ++ before ++ [End].
Proof.
  split; [reflexivity|].
  apply (runCommandInContainer_returns_after_end dockerLike quiet c0ffee
           ["mkdir"; "/app/"] (runningWorld scriptFiles)).
  reflexivity.
Defined.

Lemma consoleOf_app t1 t2 : consoleOf (t1 ++ t2) = consoleOf t1 ++ consoleOf t2.
Proof. apply flat_map_app. Qed.

Lemma chunkEvents_cons c chunks :
  chunkEvents (c :: chunks) =
  [EvEmit (Data c); EvLog ("Command output: " ++ c)] ++ chunkEvents chunks.
Proof. reflexivity. Qed.

Lemma emittedOf_chunkEvents chunks : emittedOf (chunkEvents chunks) = map Data chunks.
Proof.
  induction chunks as [|c l IH]; [reflexivity|].
  rewrite chunkEvents_cons, emittedOf_app, IH. reflexivity.
Qed.

Lemma consoleOf_chunkEvents chunks :
  consoleOf (chunkEvents chunks) = map (fun c => "Command output: " ++ c)%string chunks.
Proof.
  induction chunks as [|c l IH]; [reflexivity|].
  rewrite chunkEvents_cons, consoleOf_app, IH. reflexivity.
Qed.

Lemma awaitPromise_chunks rt src chunks after : forall w,
  awaitPromise rt quiet
    {| source := src; listeners := [("data", LogCommandOutput); ("end", ResolveWait)] |}
    (map Data chunks ++ End :: after) PPending w =
  (Fulfilled tt,
   {| container_state := container_state w; localFiles := localFiles w;
      sigintListeners := sigintListeners w;
      clock := length chunks + 1 + clock w;
      trace := trace w ++ chunkEvents chunks ++ [EvEmit End] |}).
Proof.
  induction chunks as [|c chunks IH]; intros w.
  - cbn. destruct after; reflexivity.
  - cbn [map app awaitPromise]. rewrite run_bind, turn_quiet, run_bind.
    cbn -[append awaitPromise]. rewrite IH. cbn -[append].
    rewrite <- !app_assoc. cbn -[append].
    rewrite Nat.add_succ_r. reflexivity.
Qed.

Lemma arrival_quiet rt r w : arrival rt quiet r w = advance (record (EvRequest r) w).
Proof. reflexivity. Qed.

(** [subsequence] is reflexive. *)
Lemma subsequence_refl l : subsequence l l.
Proof. induction l as [|x l IH]; cbn; auto. Qed.

(** Without interrupts, the two requests of a command whose session
    and stream the runtime grants. *)
Lemma runCommandInContainer_granted rt container command exec src w :
  fst (rt_exec rt container (execOptions command)
         (arrival rt quiet (ContainerExec container (execOptions command)) w)) = Ok exec ->
  fst (rt_exec_start rt exec execStartOptions
         (arrival rt quiet (ExecStart exec execStartOptions)
            (snd (await rt quiet (ContainerExec container (execOptions command))
                    (rt_exec rt container (execOptions command)) w)))) = Ok src ->
  on_throws src = None ->
  exists w2,
    trace w2 = trace w ++ [EvRequest (ContainerExec container (execOptions command));
                           EvRequest (ExecStart exec execStartOptions)]
    /\ runCommandInContainer rt quiet container command w =
       awaitPromise rt quiet
         {| source := src; listeners := [("data", LogCommandOutput); ("end", ResolveWait)] |}
         (events src) PPending w2.
Proof.
  intros Hexec Hstart Hon. rewrite await_quiet, !arrival_quiet in Hstart.
  cbv zeta in Hstart. cbn [snd] in Hstart. rewrite arrival_quiet in Hexec.
  unfold runCommandInContainer. rewrite run_bind, await_quiet. cbv zeta.
  rewrite Hexec. rewrite run_bind, await_quiet. cbv zeta. rewrite Hstart.
  rewrite run_bind. unfold on, newStream. cbn [source listeners]. rewrite Hon.
  cbn [sync app]. rewrite run_ret. unfold waitForStreamEnd, on. cbn [source listeners].
  rewrite Hon. cbn [app events source].
  eexists. split; [|reflexivity].
  cbn [trace advance set_state record]. rewrite <- app_assoc. reflexivity.
Qed.

(** The other direction of C1, without interrupts: when the runtime
    attaches a stream that delivers chunks and then ends, the call does
    return, every chunk logged in order. *)
Lemma runCommandInContainer_chunks_then_end rt container command exec src chunks after w :
  fst (rt_exec rt container (execOptions command)
         (arrival rt quiet (ContainerExec container (execOptions command)) w)) = Ok exec ->
  fst (rt_exec_start rt exec execStartOptions
         (arrival rt quiet (ExecStart exec execStartOptions)
            (snd (await rt quiet (ContainerExec container (execOptions command))
                    (rt_exec rt container (execOptions command)) w)))) = Ok src ->
  on_throws src = None ->
  events src = map Data chunks ++ End :: after ->
  let run := runCommandInContainer rt quiet container command w in
  fst run = Fulfilled tt /\
  trace (snd run) =
    trace w ++ [EvRequest (ContainerExec container (execOptions command));
                EvRequest (ExecStart exec execStartOptions)]
            ++ chunkEvents chunks ++ [EvEmit End].
Proof.
  intros Hexec Hstart Hon Hev run. subst run.
  destruct (runCommandInContainer_granted rt container command exec src w Hexec Hstart Hon)
    as (w2 & Ht & Hrun).
  rewrite Hrun, Hev, awaitPromise_chunks. cbn [fst snd trace].
  split; [reflexivity|]. rewrite Ht, <- !app_assoc. reflexivity.
Qed.

(** *** Stream errors *)

Section StreamErrors.

Variable rt : Runtime.
Variable interrupts : nat -> bool.

(** Once the listener is registered nothing rejects the promise: no
    event of the stream, whatever it is, makes the wait reject. *)
Lemma awaitPromise_not_rejected s evs : forall p w e,
  (forall e', p <> PRejected e') ->
  fst (awaitPromise rt interrupts s evs p w) <> Rejected e.
Proof.
  induction evs as [|ev rest IH]; intros p w e Hp.
  - destruct p as [| |e']; cbn; try discriminate. destruct (Hp e' eq_refl).
  - destruct p as [| |e']; cbn [awaitPromise]; try (cbn; discriminate).
    2: destruct (Hp e' eq_refl).
    rewrite run_bind.
    pose proof (settles_turn rt interrupts w) as Ht.
    destruct (turn rt interrupts w) as [[[]|e1| |c1] w1]; cbn [fst] in *;
      try discriminate; try contradiction.
    rewrite run_bind. unfold emitEvent. rewrite run_bind. cbn [emit].
    destruct (runListeners_run ev (listenersFor s (eventName ev)) PPending
                (record (EvEmit ev) w1)) as (t & Hls & _).
    assert (Hgo : forall w2, fst (awaitPromise rt interrupts s rest
                    (settledBy (listenersFor s (eventName ev)) PPending) w2) <> Rejected e).
    { intros w2. apply IH. intros e'. unfold settledBy.
      destruct (existsb _ _); discriminate. }
    destruct ev as [chunk| |err].
    + rewrite Hls. apply Hgo.
    + rewrite Hls. apply Hgo.
    + destruct (listenersFor s (eventName (Error err))) eqn:El.
      * cbn. discriminate.
      * rewrite Hls. apply Hgo.
Qed.

(** The wait rejects exactly when registering the listener throws. *)
Lemma waitForStreamEnd_rejects_only_sync stream w e :
  fst (waitForStreamEnd rt interrupts stream w) = Rejected e <->
  on_throws (source stream) = Some e.
Proof.
  unfold waitForStreamEnd, on. destruct (on_throws (source stream)) as [e'|].
  - destruct (events (source stream)); cbn; split; intros H; inversion H; reflexivity.
  - split; [|discriminate]. intros H.
    exfalso. revert H. apply awaitPromise_not_rejected. discriminate.
Qed.

End StreamErrors.

(** C3, on the code. An exec stream emits "error" before "end": the
    completion wait does not reject and the call does not fail with the
    error; no listener of the code receives it, the emitter throws it
    outside the promise chain, and the invocation ends there, inside
    the first command, as an uncaught exception.  Only a throw of the
    registration itself is turned into a rejection. *)
Theorem stream_error_event_is_not_rejected :
  runCommandInContainer (withExecStream brokenStream dockerLike) quiet c0ffee
    ["mkdir"; "/app/"] (runningWorld scriptFiles)
  = (Crashed (UncaughtException "socket hang up"),
     {| container_state := Running; localFiles := scriptFiles;
        sigintListeners := [ForceStop c0ffee]; clock := 12;
        trace := [EvRequest (ContainerExec c0ffee (execOptions ["mkdir"; "/app/"]));
                  EvRequest (ExecStart {| exec_id := "mkdir /app/" |} execStartOptions);
                  EvEmit (Data "partial");
                  EvLog "Command output: partial";
                  EvEmit (Error "socket hang up")] |})
  /\ fst (main (withExecStream brokenStream dockerLike) quiet false ["X=1"]
            (freshWorld scriptFiles))
     = Crashed (UncaughtException "socket hang up")
  /\ (forall rt interrupts stream w e,
        fst (waitForStreamEnd rt interrupts stream w) = Rejected e <->
        on_throws (source stream) = Some e).
Proof.
  split; [reflexivity|]. split; [reflexivity|].
  intros. apply waitForStreamEnd_rejects_only_sync.
Qed.

(** ** Interrupts *)

Lemma answered_app c t1 t2 : answered c t1 -> answered c t2 -> answered c (t1 ++ t2).
Proof.
  induction t1 as [|e t1 IH]; intros H1 H2; [exact H2|].
  destruct e; simpl in *; auto.
  destruct H1 as [Hin H1]. split; [apply in_or_app; auto | auto].
Qed.

Lemma answered_quiet c t : Forall notSIGINT t -> answered c t.
Proof.
  induction 1 as [|e t He _ IH]; [exact I|].
  destruct e; simpl in *; auto. contradiction.
Qed.

Lemma handlerEvents_quiet hs : Forall notSIGINT (flat_map handlerEvents hs).
Proof.
  induction hs as [|[c] hs IH]; simpl; [constructor|].
  repeat constructor. exact IH.
Qed.

Lemma handlerEvents_stop c hs :
  In (ForceStop c) hs -> In (forcedStopOf c) (flat_map handlerEvents hs).
Proof.
  intros H. apply in_flat_map. exists (ForceStop c). split; [exact H|].
  simpl. auto.
Qed.

Lemma answers_quiet {A} c (m : Async A) : appends notSIGINT m -> answers c m.
Proof.
  intros Hm w _. destruct (Hm w) as (t & Ht & HP).
  exists t. split; [exact Ht|]. now apply answered_quiet.
Qed.

Lemma answers_bind {A B} c (m : Async A) (k : A -> Async B) :
  answers c m -> keeps m -> (forall a, answers c (k a)) -> answers c (x <- m ;; k x).
Proof.
  intros Hm Hkeep Hk w Hin. rewrite run_bind.
  destruct (Hm w Hin) as (t & Ht & Ha).
  destruct (Hkeep w) as (_ & hs & Hl).
  destruct (m w) as [[a|e| |cr] w1]; cbn [snd] in *;
    try solve [exists t; split; assumption].
  assert (Hin1 : In (ForceStop c) (sigintListeners w1)).
  { rewrite Hl. apply in_or_app. auto. }
  destruct (Hk a w1 Hin1) as (t' & Ht' & Ha').
  exists (t ++ t'). rewrite Ht', Ht, app_assoc. split; [reflexivity|].
  now apply answered_app.
Qed.

Section InterruptFacts.

Variable rt : Runtime.
Variable interrupts : nat -> bool.

Lemma forEach_handlerCall_run hs : forall w,
  forEach handlerCall hs w =
  (Fulfilled tt,
   {| container_state := container_state w; localFiles := localFiles w;
      sigintListeners := sigintListeners w; clock := clock w;
      trace := trace w ++ flat_map handlerEvents hs |}).
Proof.
  induction hs as [|[c] hs IH]; intros w.
  - cbn. rewrite app_nil_r. destruct w; reflexivity.
  - cbn [forEach]. rewrite run_bind. cbn [handlerCall]. rewrite run_bind.
    cbn [console_log emit]. rewrite IH. cbn. rewrite <- !app_assoc. reflexivity.
Qed.

Lemma forEach_handlerReply_trace hs w :
  trace (snd (forEach (handlerReply rt) hs w)) = trace w.
Proof.
  destruct (appends_forEach (fun _ => False) (handlerReply rt) hs
              (appends_handlerReply rt (fun _ => False)) w) as (t & Ht & HP).
  destruct t as [|e t]; [now rewrite Ht, app_nil_r|].
  inversion HP; contradiction.
Qed.

(** The trace of a signal: the signal, then the call of every
    registered listener. *)
Lemma deliverSIGINT_trace w :
  trace (snd (deliverSIGINT rt w)) =
  trace w ++ EvSIGINT :: flat_map handlerEvents (sigintListeners w).
Proof.
  unfold deliverSIGINT. rewrite run_bind. cbn [emit].
  change (sigintListeners (record EvSIGINT w)) with (sigintListeners w).
  destruct (sigintListeners w) as [|h hs] eqn:E; [reflexivity|].
  rewrite run_bind, forEach_handlerCall_run, forEach_handlerReply_trace.
  cbn [trace record]. rewrite <- app_assoc. reflexivity.
Qed.

Lemma answers_turn c : answers c (turn rt interrupts).
Proof.
  intros w Hin. unfold turn. destruct (interrupts (clock w)).
  - rewrite deliverSIGINT_trace. cbn [advance trace sigintListeners].
    eexists. split; [reflexivity|]. simpl. split.
    + now apply handlerEvents_stop.
    + apply answered_quiet, handlerEvents_quiet.
  - exists []. cbn. rewrite app_nil_r. auto.
Qed.

Lemma answers_await_rest {A} c (act : endpoint A) :
  answers c (turn rt interrupts ;; res <- perform act ;; turn rt interrupts ;; settle res).
Proof.
  apply answers_bind; [apply answers_turn | apply keeps_turn |]. intros _.
  apply answers_bind; [apply answers_quiet, appends_perform | apply keeps_perform |].
  intros res.
  apply answers_bind; [apply answers_turn | apply keeps_turn |]. intros _.
  apply answers_quiet, appends_sync.
Qed.

Lemma answers_await {A} c r (act : endpoint A) : answers c (await rt interrupts r act).
Proof.
  unfold await. apply answers_bind; [| apply keeps_emit |].
  - apply answers_quiet, appends_emit. exact I.
  - intros _. apply answers_await_rest.
Qed.

Lemma appends_runListeners (P : event -> Prop) ev ls :
  (forall line, P (EvLog line)) -> forall p, appends P (runListeners ev p ls).
Proof.
  intros HP. induction ls as [|l ls IH]; intros p; cbn [runListeners].
  - apply appends_ret.
  - apply appends_bind; [|intros p'; apply IH].
    destruct l; cbn [runListener]; unfold console_log;
      auto using appends_emit with async.
Qed.

Lemma keeps_runListeners ev ls : forall p, keeps (runListeners ev p ls).
Proof.
  induction ls as [|l ls IH]; intros p; cbn [runListeners].
  - apply keeps_ret.
  - apply keeps_bind; [|intros p'; apply IH].
    destruct l; cbn [runListener]; unfold console_log; auto with async.
Qed.

Lemma appends_emitEvent (P : event -> Prop) s ev p :
  (forall line, P (EvLog line)) -> P (EvEmit ev) -> appends P (emitEvent s ev p).
Proof.
  intros HL HE. unfold emitEvent. apply appends_bind; [now apply appends_emit|].
  intros _. destruct ev; try now apply appends_runListeners.
  destruct (listenersFor s (eventName (Error e))); [apply appends_die|].
  now apply appends_runListeners.
Qed.

Lemma keeps_emitEvent s ev p : keeps (emitEvent s ev p).
Proof.
  unfold emitEvent. apply keeps_bind; [apply keeps_emit|].
  intros _. destruct ev; try apply keeps_runListeners.
  destruct (listenersFor s (eventName (Error e))); [apply keeps_die|].
  apply keeps_runListeners.
Qed.

Lemma answers_awaitPromise c s evs : forall p, answers c (awaitPromise rt interrupts s evs p).
Proof.
  induction evs as [|ev rest IH]; intros p; destruct p; cbn [awaitPromise];
    try (apply answers_quiet; auto with async; fail).
  apply answers_bind; [apply answers_turn | apply keeps_turn |]. intros _.
  apply answers_bind; [| apply keeps_emitEvent | intros p'; apply IH].
  apply answers_quiet, appends_emitEvent; intros; exact I.
Qed.

Lemma keeps_awaitPromise s evs : forall p, keeps (awaitPromise rt interrupts s evs p).
Proof.
  induction evs as [|ev rest IH]; intros p; destruct p; cbn [awaitPromise];
    auto with async.
  apply keeps_bind; [apply keeps_turn|]. intros _.
  apply keeps_bind; [apply keeps_emitEvent | intros p'; apply IH].
Qed.

Lemma answers_waitForStreamEnd c stream : answers c (waitForStreamEnd rt interrupts stream).
Proof. unfold waitForStreamEnd. destruct (on _ _ _); apply answers_awaitPromise. Qed.

Lemma keeps_waitForStreamEnd stream : keeps (waitForStreamEnd rt interrupts stream).
Proof. unfold waitForStreamEnd. destruct (on _ _ _); apply keeps_awaitPromise. Qed.

Lemma answers_runCommandInContainer c container command :
  answers c (runCommandInContainer rt interrupts container command).
Proof.
  unfold runCommandInContainer.
  apply answers_bind; [apply answers_await | apply keeps_await |]. intros exec.
  apply answers_bind; [apply answers_await | apply keeps_await |]. intros src.
  apply answers_bind; [apply answers_quiet, appends_sync | apply keeps_sync |].
  intros stream. apply answers_waitForStreamEnd.
Qed.

Lemma keeps_runCommandInContainer container command :
  keeps (runCommandInContainer rt interrupts container command).
Proof.
  unfold runCommandInContainer.
  apply keeps_bind; [apply keeps_await|]. intros exec.
  apply keeps_bind; [apply keeps_await|]. intros src.
  apply keeps_bind; [apply keeps_sync|]. intros stream.
  apply keeps_waitForStreamEnd.
Qed.

Lemma answers_copyFileToContainer c container localFilePath containerFilePath :
  answers c (copyFileToContainer rt interrupts container localFilePath containerFilePath).
Proof.
  unfold copyFileToContainer.
  apply answers_bind; [apply answers_quiet, appends_emit; exact I | apply keeps_emit |].
  intros _.
  apply answers_bind; [apply answers_turn | apply keeps_turn |]. intros _.
  apply answers_bind;
    [apply answers_quiet, appends_sendArchive | apply keeps_sendArchive |]. intros res.
  apply answers_bind; [apply answers_turn | apply keeps_turn |]. intros _.
  apply answers_quiet, appends_sync.
Qed.

Lemma keeps_copyFileToContainer container localFilePath containerFilePath :
  keeps (copyFileToContainer rt interrupts container localFilePath containerFilePath).
Proof.
  unfold copyFileToContainer, settle.
  repeat (apply keeps_bind;
          [auto using keeps_turn, keeps_sendArchive with async|]; intros ?).
  apply keeps_sync.
Qed.

Lemma answers_console_log c line : answers c (console_log line).
Proof. apply answers_quiet, appends_emit. exact I. Qed.

Lemma answers_tearDown c container : answers c (tearDown rt interrupts container).
Proof.
  unfold tearDown.
  apply answers_bind; [apply answers_await | apply keeps_await |]. intros _.
  apply answers_bind; [apply answers_console_log | apply keeps_emit |]. intros _.
  apply answers_bind; [apply answers_await | apply keeps_await |]. intros _.
  apply answers_console_log.
Qed.

End InterruptFacts.

Lemma registers_bind {A B} c (m : Async A) (k : A -> Async B) :
  registers c m -> (forall a, keeps (k a)) -> registers c (x <- m ;; k x).
Proof.
  intros Hm Hk w. rewrite run_bind. specialize (Hm w).
  destruct (m w) as [[a|e| |cr] w1]; cbn [snd] in *; auto.
  destruct (Hk a w1) as (_ & hs & Hl). rewrite Hl. apply in_or_app. auto.
Qed.

Lemma opensGuarded_bind {A B} c (m : Async A) (k : A -> Async B) :
  opensGuarded c m -> registers c m -> (forall a, answers c (k a)) ->
  opensGuarded c (x <- m ;; k x).
Proof.
  intros Hm Hreg Hk w. rewrite run_bind.
  destruct (Hm w) as (t & Ht & Ha). specialize (Hreg w).
  destruct (m w) as [[a|e| |cr] w1]; cbn [snd] in *;
    try solve [exists t; split; assumption].
  destruct (Hk a w1 Hreg) as (t' & Ht' & Ha').
  exists (t ++ t'). rewrite Ht', Ht, <- app_assoc. split; [reflexivity|].
  now apply answered_app.
Qed.

Section StartFacts.

Variable rt : Runtime.
Variable interrupts : nat -> bool.

Lemma answers_afterStart c container :
  answers c (afterStart rt interrupts container).
Proof.
  unfold afterStart.
  apply answers_bind; [apply answers_await | apply keeps_await |]. intros src.
  apply answers_bind; [apply answers_quiet, appends_sync | apply keeps_sync |].
  intros stream. apply answers_quiet, appends_ret.
Qed.

Lemma keeps_startContainer container : keeps (startContainer rt interrupts container).
Proof.
  unfold startContainer.
  apply keeps_bind; [apply keeps_process_on_SIGINT|]. intros _.
  apply keeps_bind; [apply keeps_await|]. intros _.
  apply keeps_bind; [apply keeps_await|]. intros src.
  apply keeps_bind; [apply keeps_sync|]. intros stream. apply keeps_ret.
Qed.

Lemma registers_startContainer container :
  registers container (startContainer rt interrupts container).
Proof.
  unfold startContainer. apply registers_bind.
  - intros w. cbn. apply in_or_app. right. left. reflexivity.
  - intros _.
    apply keeps_bind; [apply keeps_await|]. intros _.
    apply keeps_bind; [apply keeps_await|]. intros src.
    apply keeps_bind; [apply keeps_sync|]. intros stream. apply keeps_ret.
Qed.

Lemma opensGuarded_startContainer container :
  opensGuarded container (startContainer rt interrupts container).
Proof.
  intros w. unfold startContainer. rewrite run_bind. cbn [process_on_SIGINT].
  set (w0 := add_listener (ForceStop container) (record (EvOnSIGINT (ForceStop container)) w)).
  assert (Hin : In (ForceStop container) (sigintListeners (record (EvRequest (ContainerStart container)) w0))).
  { cbn. apply in_or_app. right. left. reflexivity. }
  unfold await at 1. rewrite !run_bind. cbn [emit].
  destruct (answers_bind container
              (turn rt interrupts ;;
               res <- perform (rt_start rt container) ;;
               turn rt interrupts ;; settle res)
              (fun _ => afterStart rt interrupts container)
              (answers_await_rest rt interrupts container (rt_start rt container))
              (keeps_bind _ _ (keeps_turn rt interrupts)
                 (fun _ => keeps_bind _ _ (keeps_perform _)
                    (fun res => keeps_bind _ _ (keeps_turn rt interrupts)
                       (fun _ => keeps_sync res))))
              (fun _ => answers_afterStart container container)
              _ Hin) as (t & Ht & Ha).
  exists t. split; [|exact Ha].
  etransitivity; [exact Ht|]. cbn [trace record w0 add_listener].
  rewrite <- !app_assoc. reflexivity.
Qed.

Lemma registers_runBuild container : registers container (runBuild rt interrupts container).
Proof.
  unfold runBuild. apply registers_bind; [apply registers_startContainer|]. intros _.
  apply keeps_bind; [apply keeps_emit|]. intros _.
  apply keeps_bind; [apply keeps_runCommandInContainer|]. intros _.
  apply keeps_bind; [apply keeps_copyFileToContainer|]. intros _.
  apply keeps_bind; [apply keeps_copyFileToContainer|]. intros _.
  apply keeps_runCommandInContainer.
Qed.

Lemma opensGuarded_runBuild container :
  opensGuarded container (runBuild rt interrupts container).
Proof.
  unfold runBuild.
  apply opensGuarded_bind;
    [apply opensGuarded_startContainer | apply registers_startContainer |].
  intros _.
  apply answers_bind; [apply answers_console_log | apply keeps_emit |]. intros _.
  apply answers_bind;
    [apply answers_runCommandInContainer | apply keeps_runCommandInContainer |]. intros _.
  apply answers_bind;
    [apply answers_copyFileToContainer | apply keeps_copyFileToContainer |]. intros _.
  apply answers_bind;
    [apply answers_copyFileToContainer | apply keeps_copyFileToContainer |]. intros _.
  apply answers_runCommandInContainer.
Qed.

End StartFacts.

(** A signal with exactly the listener of [startContainer] registered. *)
Lemma deliverSIGINT_single rt c w :
  sigintListeners w = [ForceStop c] ->
  deliverSIGINT rt w =
  (match fst (rt_stop rt c (Some {| force := true |}) (atForcedStop c w)) with
   | Ok _ => Fulfilled tt
   | Err e => Crashed (UnhandledRejection e)
   end,
   set_state (snd (rt_stop rt c (Some {| force := true |}) (atForcedStop c w)))
             (atForcedStop c w)).
Proof.
  destruct w as [s files hs n t]. cbn [sigintListeners]. intros ->.
  unfold deliverSIGINT, atForcedStop, forcedStopOf. cbn. unfold perform.
  destruct (rt_stop rt c _ _) as [[u|e] s']; reflexivity.
Qed.

(** A signal with no listener registered: the default disposition. *)
Lemma deliverSIGINT_default rt w :
  sigintListeners w = [] ->
  deliverSIGINT rt w = (Crashed KilledBySIGINT, record EvSIGINT w).
Proof.
  destruct w as [s files hs n t]. cbn [sigintListeners]. intros ->. reflexivity.
Qed.

(** C2, counterexample. Two signals in a row during the first
    command.  The first finds the container running: the listener's
    forced stop is accepted and the process goes on.  The second finds
    the container stopped: the listener asks again, the runtime answers
    that the container is already stopped, and the rejection of the
    listener, which nobody handles, ends the process. *)
Lemma second_interrupt_ends_process :
  let run := main dockerLike (interruptsAt [10; 11]) false ["X=1"] (freshWorld scriptFiles) in
  fst run = Crashed (UnhandledRejection alreadyStopped)
  /\ container_state (snd run) = Stopped
  /\ skipn 8 (trace (snd run)) =
     [EvSIGINT; EvLog "Caught interrupt signal"; forcedStopOf c0ffee;
      EvEmit (Data "$ mkdir /app/"); EvLog "Command output: $ mkdir /app/";
      EvSIGINT; EvLog "Caught interrupt signal"; forcedStopOf c0ffee]
  /\ fst (deliverSIGINT dockerLike stoppedWorld) = Crashed (UnhandledRejection alreadyStopped)
  /\ ~ listener_never_ends_process.
Proof.
  cbv zeta. split; [reflexivity|]. split; [reflexivity|]. split; [reflexivity|].
  split; [reflexivity|].
  intros H.
  apply (H dockerLike c0ffee stoppedWorld (or_introl eq_refl)
           (UnhandledRejection alreadyStopped)).
  reflexivity.
Qed.

(** C2, amended. [startContainer] registers the interrupt listener
    before it issues the start request: the registration is the first
    thing it does and the request comes right after.  From then on,
    through the rest of [startContainer] and through everything the
    main script does afterwards, every interrupt that reaches the
    process is followed by a stop request with [force] set on that
    container.  The listener has no exit of its own: the process goes
    on after a signal exactly when the runtime accepts that forced
    stop; when the runtime refuses it, the rejection of the listener,
    which nobody handles, ends the process with the error of that very
    reply. *)
Theorem startContainer_listener_before_start rt interrupts container w :
  (exists t,
      trace (snd (startContainer rt interrupts container w)) =
      trace w ++ EvOnSIGINT (ForceStop container)
              :: EvRequest (ContainerStart container) :: t
      /\ answered container t)
  /\ (exists t,
      trace (snd ((runBuild rt interrupts container ;;
                   tearDown rt interrupts container) w)) =
      trace w ++ EvOnSIGINT (ForceStop container)
              :: EvRequest (ContainerStart container) :: t
      /\ answered container t)
  /\ (forall w2,
        In (ForceStop container) (sigintListeners w2) ->
        exists t, trace (snd (deliverSIGINT rt w2)) = trace w2 ++ EvSIGINT :: t
                  /\ In (forcedStopOf container) t)
  /\ (forall w2,
        sigintListeners w2 = [ForceStop container] ->
        (forall u,
            fst (rt_stop rt container (Some {| force := true |})
                   (atForcedStop container w2)) = Ok u ->
            fst (deliverSIGINT rt w2) = Fulfilled tt)
        /\ (forall e,
            fst (rt_stop rt container (Some {| force := true |})
                   (atForcedStop container w2)) = Err e ->
            fst (deliverSIGINT rt w2) = Crashed (UnhandledRejection e))).
Proof.
  split; [apply opensGuarded_startContainer|]. split; [|split].
  - apply (opensGuarded_bind container (runBuild rt interrupts container)
             (fun _ => tearDown rt interrupts container)).
    + apply opensGuarded_runBuild.
    + apply registers_runBuild.
    + intros _. apply answers_tearDown.
  - intros w2 Hin. rewrite deliverSIGINT_trace. eexists. split; [reflexivity|].
    now apply handlerEvents_stop.
  - intros w2 Hl. rewrite (deliverSIGINT_single rt container w2 Hl). cbn [fst].
    split; intros x Hx; rewrite Hx; reflexivity.
Qed.

Lemma startContainer_listener_before_start_witness :
  sigintListeners (runningWorld scriptFiles) = [ForceStop c0ffee]
  /\ fst (rt_stop dockerLike c0ffee (Some {| force := true |})
            (atForcedStop c0ffee (runningWorld scriptFiles))) = Ok tt
  /\ fst (deliverSIGINT dockerLike (runningWorld scriptFiles)) = Fulfilled tt
  /\ sigintListeners stoppedWorld = [ForceStop c0ffee]
  /\ fst (rt_stop dockerLike c0ffee (Some {| force := true |})
            (atForcedStop c0ffee stoppedWorld)) = Err alreadyStopped
  /\ fst (deliverSIGINT dockerLike stoppedWorld) = Crashed (UnhandledRejection alreadyStopped).
Proof.
  split; [reflexivity|]. split; [reflexivity|]. split.
  { apply (proj1 (proj2 (proj2 (proj2
             (startContainer_listener_before_start dockerLike quiet c0ffee
                (freshWorld scriptFiles)))) (runningWorld scriptFiles) eq_refl) tt).
    reflexivity. }
  split; [reflexivity|]. split; [reflexivity|].
  apply (proj2 (proj2 (proj2 (proj2
           (startContainer_listener_before_start dockerLike quiet c0ffee
              (freshWorld scriptFiles)))) stoppedWorld eq_refl) alreadyStopped).
  reflexivity.
Defined.

(** *** Interrupts and the state of the container *)

(** C7, counterexample. The signal arrives while the start request is
    in flight: the container is still only created, the listener asks
    the runtime to stop it, the runtime answers that it is not running,
    and the rejection of the listener ends the process.  A signal
    that arrives one turn earlier, when the runtime has created the
    container and the script has not resumed yet, finds no listener at
    all and ends the process by its default disposition. *)
Lemma interrupt_while_created_crashes :
  main dockerLike (interruptAt 2) false ["X=1"] (freshWorld scriptFiles)
  = (Crashed (UnhandledRejection alreadyStopped),
     {| container_state := Created; localFiles := scriptFiles;
        sigintListeners := [ForceStop c0ffee]; clock := 3;
        trace := [EvRequest (DockerCreateContainer (createOptions "node:latest" ["X=1"]));
                  EvLog "Container c0ffee created.";
                  EvOnSIGINT (ForceStop c0ffee);
                  EvRequest (ContainerStart c0ffee);
                  EvSIGINT;
                  EvLog "Caught interrupt signal";
                  forcedStopOf c0ffee] |})
  /\ main dockerLike (interruptAt 1) false ["X=1"] (freshWorld scriptFiles)
     = (Crashed KilledBySIGINT,
        {| container_state := Created; localFiles := scriptFiles;
           sigintListeners := []; clock := 2;
           trace := [EvRequest (DockerCreateContainer (createOptions "node:latest" ["X=1"]));
                     EvSIGINT] |})
  /\ ~ interrupt_while_created_is_harmless.
Proof.
  split; [reflexivity|]. split; [reflexivity|].
  intros H.
  apply (H dockerLike createdWorld eq_refl (UnhandledRejection alreadyStopped)).
  reflexivity.
Qed.

(** C7, amended. With the listener of [startContainer] registered, a
    signal makes the listener log and issue a forced stop, whatever the
    state of the container.  Received while the container runs, on a
    runtime that honours stop, it leaves the container stopped and the
    process running.  Received while the container is only created, it
    leaves the process running exactly when the runtime accepts that
    stop; when the runtime refuses it, the listener's rejection ends
    the process. *)
Theorem interrupt_forces_stop rt container w :
  sigintListeners w = [ForceStop container] ->
  trace (snd (deliverSIGINT rt w)) =
    trace w ++ [EvSIGINT; EvLog "Caught interrupt signal"; forcedStopOf container]
  /\ (container_state w = Running -> honoursStop rt ->
      fst (deliverSIGINT rt w) = Fulfilled tt /\
      container_state (snd (deliverSIGINT rt w)) = Stopped)
  /\ (container_state w = Created ->
      (forall e, fst (rt_stop rt container (Some {| force := true |})
                        (atForcedStop container w)) = Err e ->
                 fst (deliverSIGINT rt w) = Crashed (UnhandledRejection e))
      /\ (forall u, fst (rt_stop rt container (Some {| force := true |})
                           (atForcedStop container w)) = Ok u ->
                    fst (deliverSIGINT rt w) = Fulfilled tt)).
Proof.
  intros Hl. rewrite (deliverSIGINT_single rt container w Hl). cbn [fst snd].
  split; [|split].
  - cbn. rewrite <- !app_assoc. reflexivity.
  - intros Hrun Hrt.
    rewrite (Hrt container (Some {| force := true |}) (atForcedStop container w) Hrun).
    split; reflexivity.
  - intros _. split; intros x Hx; rewrite Hx; reflexivity.
Qed.

Lemma honoursStop_dockerLike : honoursStop dockerLike.
Proof. intros c o w Hw. cbn. rewrite Hw. reflexivity. Qed.

Lemma interrupt_forces_stop_witness :
  sigintListeners (runningWorld scriptFiles) = [ForceStop c0ffee] /\
  container_state (runningWorld scriptFiles) = Running /\
  honoursStop dockerLike /\
  fst (deliverSIGINT dockerLike (runningWorld scriptFiles)) = Fulfilled tt /\
  container_state (snd (deliverSIGINT dockerLike (runningWorld scriptFiles))) = Stopped.
Proof.
  split; [reflexivity|]. split; [reflexivity|]. split; [exact honoursStop_dockerLike|].
  apply (proj1 (proj2 (interrupt_forces_stop dockerLike c0ffee (runningWorld scriptFiles)
                         eq_refl))).
  - reflexivity.
  - exact honoursStop_dockerLike.
Defined.

(** ** The main script: failures and the end of the container *)

(** Against the sample runtime, with both scripts in place and no
    interrupt, the script runs to its end and the container is
    removed. *)
Example main_completes :
  let run := main dockerLike quiet false ["X=1"] (freshWorld scriptFiles) in
  fst run = Fulfilled tt
  /\ container_state (snd run) = Removed
  /\ requestsOf (trace (snd run)) =
     [DockerCreateContainer (createOptions "node:latest" ["X=1"]);
      ContainerStart c0ffee;
      ContainerLogs c0ffee logsOptions;
      ContainerExec c0ffee (execOptions ["mkdir"; "/app/"]);
      ExecStart {| exec_id := "mkdir /app/" |} execStartOptions;
      ContainerPutArchive c0ffee (archiveOf "./build/build.sh") {| path := "/app/" |};
      ContainerPutArchive c0ffee (archiveOf "./create_github_repo.sh") {| path := "/app/" |};
      ContainerExec c0ffee (execOptions ["bash"; "/app/create_github_repo.sh"]);
      ExecStart {| exec_id := "bash /app/create_github_repo.sh" |} execStartOptions;
      ContainerStop c0ffee None;
      ContainerRemove c0ffee]
  /\ consoleOf (trace (snd run)) =
     ["Container c0ffee created.";
      "Container c0ffee started.";
      "Command output: $ mkdir /app/";
      "Command output: $ bash /app/create_github_repo.sh";
      "Container c0ffee stopped.";
      "Container c0ffee removed."].
Proof. cbv zeta. repeat split. Qed.

Lemma interruptEvent_notTearDown e : interruptEvent e -> notTearDown e.
Proof. destruct e as [| |[]| |]; simpl; auto. destruct o; auto. Qed.

Section MainFacts.

Variable rt : Runtime.
Variable interrupts : nat -> bool.

Lemma appends_awaitPromise (P : event -> Prop) s evs :
  (forall e, interruptEvent e -> P e) -> (forall line, P (EvLog line)) ->
  (forall ev, P (EvEmit ev)) ->
  forall p, appends P (awaitPromise rt interrupts s evs p).
Proof.
  intros HI HL HE. induction evs as [|ev rest IH]; intros p; destruct p;
    cbn [awaitPromise]; auto with async.
  apply appends_bind; [now apply appends_turn|]. intros _.
  apply appends_bind; [now apply appends_emitEvent | intros p'; apply IH].
Qed.

Lemma notTearDown_runCommandInContainer container command :
  appends notTearDown (runCommandInContainer rt interrupts container command).
Proof.
  unfold runCommandInContainer.
  apply appends_bind;
    [apply appends_await; [apply interruptEvent_notTearDown | exact I]|]. intros exec.
  apply appends_bind;
    [apply appends_await; [apply interruptEvent_notTearDown | exact I]|]. intros src.
  apply appends_bind; [apply appends_sync|]. intros stream.
  unfold waitForStreamEnd.
  destruct (on _ _ _); apply appends_awaitPromise;
    solve [apply interruptEvent_notTearDown | intros; exact I].
Qed.

Lemma notTearDown_copyFileToContainer container localFilePath containerFilePath :
  appends notTearDown
          (copyFileToContainer rt interrupts container localFilePath containerFilePath).
Proof.
  eapply begins_appends;
    [| eapply begins_weaken;
       [apply interruptEvent_notTearDown | apply copyFileToContainer_begins]].
  exact I.
Qed.

Lemma notTearDown_startContainer container :
  appends notTearDown (startContainer rt interrupts container).
Proof.
  unfold startContainer.
  apply appends_bind.
  { intros w. exists [EvOnSIGINT (ForceStop container)].
    split; [reflexivity | repeat constructor]. }
  intros _.
  apply appends_bind;
    [apply appends_await; [apply interruptEvent_notTearDown | exact I]|]. intros _.
  apply appends_bind;
    [apply appends_await; [apply interruptEvent_notTearDown | exact I]|]. intros src.
  apply appends_bind; [apply appends_sync|]. intros stream. apply appends_ret.
Qed.

(** Nothing in the build phase stops or removes the container, except
    the forced stop of the interrupt listener. *)
Lemma notTearDown_runBuild container :
  appends notTearDown (runBuild rt interrupts container).
Proof.
  unfold runBuild.
  apply appends_bind; [apply notTearDown_startContainer|]. intros _.
  apply appends_bind; [apply appends_emit; exact I|]. intros _.
  apply appends_bind; [apply notTearDown_runCommandInContainer|]. intros _.
  apply appends_bind; [apply notTearDown_copyFileToContainer|]. intros _.
  apply appends_bind; [apply notTearDown_copyFileToContainer|]. intros _.
  apply notTearDown_runCommandInContainer.
Qed.

Lemma notTearDown_createContainer tag environment :
  appends notTearDown (createContainer rt interrupts tag environment).
Proof. apply appends_await; [apply interruptEvent_notTearDown | exact I]. Qed.

End MainFacts.

(** C6, counterexample. The helper script is missing: the second copy
    fails, the script ends there, and the container is left running;
    neither stop nor remove was requested. *)
Lemma failed_copy_leaves_container_running :
  let run := main dockerLike quiet false ["X=1"] (freshWorld ["./build/build.sh"]) in
  fst run = Rejected noSuchFile
  /\ container_state (snd run) = Running
  /\ requestsOf (trace (snd run)) =
     [DockerCreateContainer (createOptions "node:latest" ["X=1"]);
      ContainerStart c0ffee;
      ContainerLogs c0ffee logsOptions;
      ContainerExec c0ffee (execOptions ["mkdir"; "/app/"]);
      ExecStart {| exec_id := "mkdir /app/" |} execStartOptions;
      ContainerPutArchive c0ffee (archiveOf "./build/build.sh") {| path := "/app/" |};
      ContainerPutArchive c0ffee (archiveOf "./create_github_repo.sh") {| path := "/app/" |}]
  /\ ~ failure_still_cleans_up.
Proof.
  cbv zeta. split; [reflexivity|]. split; [reflexivity|]. split; [reflexivity|].
  intros H.
  destruct (H dockerLike quiet false ["X=1"] (freshWorld ["./build/build.sh"])
              c0ffee _ noSuchFile eq_refl eq_refl) as [Hstop _].
  vm_compute in Hstop.
  repeat (destruct Hstop as [Hstop|Hstop]; [discriminate Hstop|]). exact Hstop.
Qed.

(** C6, amended. When an operation that precedes the last phase
    fails after the container was created (the start, the logs, a
    command, a copy, or the report of a dry run), the script is
    abandoned at once with that failure: up to there it has requested
    neither the plain stop nor the removal of the container, and it
    requests nothing more.  The plain stop and the removal are
    requested only when every operation before them was fulfilled. *)
Theorem main_abandons_without_teardown
    rt interrupts dryRun environment w container w1 o w2 :
  createContainer rt interrupts baseImage environment w = (Fulfilled container, w1) ->
  beforeTearDown rt interrupts dryRun container
    (record (EvLog ("Container " ++ id container ++ " created.")) w1) = (o, w2) ->
  o <> Fulfilled tt ->
  main rt interrupts dryRun environment w = (o, w2)
  /\ exists t, trace w2 = trace w ++ t /\ Forall notTearDown t.
Proof.
  intros Hcreate Hbefore Hfail. split.
  - unfold main. rewrite run_bind, Hcreate, run_bind. cbn [console_log emit].
    unfold beforeTearDown in Hbefore. destruct dryRun; [exact Hbefore|].
    rewrite run_bind, Hbefore. destruct o as [[]|e| |c]; [contradiction| | |]; reflexivity.
  - assert (Hnt : appends notTearDown (beforeTearDown rt interrupts dryRun container)).
    { unfold beforeTearDown. destruct dryRun; [|apply notTearDown_runBuild].
      unfold console_log.
      apply appends_bind; [apply appends_emit; exact I|]. intros _.
      apply appends_bind; [apply appends_emit; exact I|]. intros _.
      apply appends_throw. }
    destruct (notTearDown_createContainer rt interrupts baseImage environment w)
      as (t1 & Ht1 & HP1).
    rewrite Hcreate in Ht1. cbn [snd] in Ht1.
    destruct (Hnt (record (EvLog ("Container " ++ id container ++ " created.")) w1))
      as (t2 & Ht2 & HP2).
    rewrite Hbefore in Ht2. cbn [snd trace record] in Ht2.
    exists (t1 ++ EvLog ("Container " ++ id container ++ " created.") :: t2).
    split.
    + rewrite Ht2, Ht1, <- !app_assoc. reflexivity.
    + apply Forall_app. split; [assumption|]. constructor; [exact I | assumption].
Qed.

Lemma main_abandons_without_teardown_witness :
  let w := freshWorld ["./build/build.sh"] in
  let run := main dockerLike quiet false ["X=1"] w in
  run = (Rejected noSuchFile, snd run)
  /\ exists t, trace (snd run) = trace w ++ t /\ Forall notTearDown t.
Proof.
  cbv zeta.
  apply (main_abandons_without_teardown dockerLike quiet false ["X=1"]
           (freshWorld ["./build/build.sh"]) c0ffee
           (snd (createContainer dockerLike quiet baseImage ["X=1"]
                   (freshWorld ["./build/build.sh"])))
           (Rejected noSuchFile)
           (snd (main dockerLike quiet false ["X=1"] (freshWorld ["./build/build.sh"])))).
  - vm_compute. reflexivity.
  - vm_compute. reflexivity.
  - discriminate.
Defined.

(** In a dry run the script fails right after the creation, on the
    undeclared [dockerTag]; the container stays created. *)
Lemma main_dryRun_abandons rt environment w container w1 :
  createContainer rt quiet baseImage environment w = (Fulfilled container, w1) ->
  fst (main rt quiet true environment w) = Rejected "ReferenceError: dockerTag is not defined"
  /\ container_state (snd (main rt quiet true environment w)) = container_state w1
  /\ sigintListeners (snd (main rt quiet true environment w)) = sigintListeners w1.
Proof.
  intros Hcreate. unfold main. rewrite run_bind, Hcreate. cbn. auto.
Qed.

(** C5, counterexample. An interrupt arrives during the last command:
    the listener's forced stop stops the container, the command's
    stream ends, and the stop of the last phase is answered "already
    stopped".  The script fails with that answer and never requests the
    removal. *)
Lemma stop_after_forced_stop_fails :
  let run := main dockerLike (interruptAt 21) false ["X=1"] (freshWorld scriptFiles) in
  fst run = Rejected alreadyStopped
  /\ container_state (snd run) = Stopped
  /\ skipn 9 (requestsOf (trace (snd run))) =
     [ContainerStop c0ffee (Some {| force := true |}); ContainerStop c0ffee None]
  /\ ~ stop_on_stopped_is_success.
Proof.
  cbv zeta. split; [reflexivity|]. split; [reflexivity|]. split; [reflexivity|].
  intros H.
  destruct (H dockerLike c0ffee stoppedWorld eq_refl) as (t & Ht).
  discriminate Ht.
Qed.

(** C5, amended. On a container that has already stopped, the last
    phase issues its stop request all the same and takes the runtime's
    answer as it comes: when the runtime answers with an error the
    script fails with that error and requests nothing more, in
    particular no removal; when the runtime answers with success the
    script reports the container stopped and requests its removal. *)
Theorem tearDown_stop_follows_runtime rt container w :
  container_state w = Stopped ->
  (forall e,
      fst (rt_stop rt container None
             (advance (record (EvRequest (ContainerStop container None)) w))) = Err e ->
      fst (tearDown rt quiet container w) = Rejected e /\
      trace (snd (tearDown rt quiet container w)) =
      trace w ++ [EvRequest (ContainerStop container None)])
  /\ (forall u,
      fst (rt_stop rt container None
             (advance (record (EvRequest (ContainerStop container None)) w))) = Ok u ->
      exists t,
        trace (snd (tearDown rt quiet container w)) =
        trace w ++ EvRequest (ContainerStop container None)
                :: EvLog ("Container " ++ id container ++ " stopped.")
                :: EvRequest (ContainerRemove container) :: t).
Proof.
  intros _. unfold tearDown. rewrite run_bind, await_quiet. cbv zeta.
  split.
  - intros e He. rewrite He. split; reflexivity.
  - intros u Hu. rewrite Hu. rewrite run_bind. cbn [console_log emit].
    set (w2 := record _ _).
    destruct (begins_await rt quiet (fun _ => True) (ContainerRemove container)
                (rt_remove rt container) (fun _ _ => I) w2) as (t & Ht & _).
    rewrite run_bind.
    destruct (await rt quiet (ContainerRemove container) (rt_remove rt container) w2)
      as [[[]|e| |c] w3]; cbn [snd] in Ht.
    + exists (t ++ [EvLog ("Container " ++ id container ++ " removed.")]).
      cbn [console_log emit snd trace record]. rewrite Ht. unfold w2.
      cbn [trace record advance set_state]. rewrite <- !app_assoc. reflexivity.
    + exists t. cbn [snd]. rewrite Ht. unfold w2.
      cbn [trace record advance set_state]. rewrite <- !app_assoc. reflexivity.
    + exists t. cbn [snd]. rewrite Ht. unfold w2.
      cbn [trace record advance set_state]. rewrite <- !app_assoc. reflexivity.
    + exists t. cbn [snd]. rewrite Ht. unfold w2.
      cbn [trace record advance set_state]. rewrite <- !app_assoc. reflexivity.
Qed.

Lemma tearDown_stop_follows_runtime_witness :
  container_state stoppedWorld = Stopped /\
  fst (rt_stop dockerLike c0ffee None
         (advance (record (EvRequest (ContainerStop c0ffee None)) stoppedWorld)))
  = Err alreadyStopped /\
  fst (tearDown dockerLike quiet c0ffee stoppedWorld) = Rejected alreadyStopped /\
  trace (snd (tearDown dockerLike quiet c0ffee stoppedWorld)) =
  trace stoppedWorld ++ [EvRequest (ContainerStop c0ffee None)].
Proof.
  split; [reflexivity|]. split; [reflexivity|].
  apply (proj1 (tearDown_stop_follows_runtime dockerLike c0ffee stoppedWorld eq_refl)).
  reflexivity.
Defined.

(** * Further properties *)

(** ** applyCorrections *)

Example applyCorrections_sample :
  applyCorrections (units "npx create-react-app x" ++ [10%N] ++ units "git push origin main")
  = units "npx --yes create-react-app x" ++ [10%N].
Proof. reflexivity. Qed.

(** *** Lines and terminators *)

Lemma splitLines_lines (s : jsString) :
  oneLine (fst (splitLines s)) /\
  Forall (fun ul => isLineTerminator (fst ul) = true /\ oneLine (snd ul))
         (snd (splitLines s)).
Proof.
  induction s as [|u s IH]; cbn [splitLines].
  - split; constructor.
  - destruct (splitLines s) as [l rest]. cbn [fst snd] in IH. destruct IH as [Hl Hrest].
    destruct (isLineTerminator u) eqn:Hu; cbn [fst snd].
    + split; [constructor|]. constructor; [split; assumption | assumption].
    + split; [constructor; assumption | assumption].
Qed.

Lemma joinLines_splitLines (s : jsString) : joinLines (splitLines s) = s.
Proof.
  induction s as [|u s IH]; [reflexivity|]. cbn [splitLines].
  destruct (splitLines s) as [l rest]. unfold joinLines in *. cbn [fst snd] in *.
  destruct (isLineTerminator u); cbn; rewrite IH; reflexivity.
Qed.

Lemma splitLines_app_oneLine (l s : jsString) :
  oneLine l ->
  splitLines (l ++ s) = (l ++ fst (splitLines s), snd (splitLines s)).
Proof.
  induction 1 as [|u l Hu _ IH]; cbn [app splitLines].
  - destruct (splitLines s); reflexivity.
  - rewrite IH, Hu. reflexivity.
Qed.

Lemma splitLines_joinLines (l : jsString) (rest : list (N * jsString)) :
  oneLine l ->
  Forall (fun ul => isLineTerminator (fst ul) = true /\ oneLine (snd ul)) rest ->
  splitLines (joinLines (l, rest)) = (l, rest).
Proof.
  intros Hl Hrest. unfold joinLines. cbn [fst snd].
  rewrite (splitLines_app_oneLine _ _ Hl).
  assert (H : splitLines (flat_map (fun ul => fst ul :: snd ul) rest) = ([], rest)).
  { clear l Hl. induction Hrest as [|[u l] rest [Hu Hl] _ IH]; [reflexivity|].
    cbn [flat_map fst snd app splitLines] in *.
    rewrite (splitLines_app_oneLine _ _ Hl), IH, Hu. cbn [fst snd].
    rewrite app_nil_r. reflexivity. }
  rewrite H. cbn [fst snd]. rewrite app_nil_r. reflexivity.
Qed.

Lemma splitLines_oneLine (l : jsString) : oneLine l -> splitLines l = (l, []).
Proof.
  intros Hl. rewrite <- (app_nil_r l) at 1.
  rewrite (splitLines_app_oneLine _ _ Hl). cbn. rewrite app_nil_r. reflexivity.
Qed.

(** A replacement that keeps lines whole is seen line by line in the
    result. *)
Lemma splitLines_onLines (f : jsString -> jsString) (s : jsString) :
  (forall l, oneLine l -> oneLine (f l)) ->
  splitLines (onLines f s) =
  (f (fst (splitLines s)), map (fun ul => (fst ul, f (snd ul))) (snd (splitLines s))).
Proof.
  intros Hf. unfold onLines. destruct (splitLines_lines s) as [Hl Hrest].
  apply splitLines_joinLines; [auto|].
  induction Hrest as [|[u l] rest [Hu Hl'] _ IH]; cbn [map]; constructor;
    [cbn [fst snd] in *; split; auto | exact IH].
Qed.

Lemma oneLine_app (l1 l2 : jsString) : oneLine l1 -> oneLine l2 -> oneLine (l1 ++ l2).
Proof. intros H1 H2. apply Forall_app. auto. Qed.

Lemma oneLine_skipn n (l : jsString) : oneLine l -> oneLine (skipn n l).
Proof.
  intros Hl. unfold oneLine in *. rewrite Forall_forall in *.
  intros u Hu. apply Hl. rewrite <- (firstn_skipn n l). apply in_or_app. auto.
Qed.

Lemma oneLine_replaceLineStart pre new l :
  oneLine new -> oneLine l -> oneLine (replaceLineStart pre new l).
Proof.
  intros Hn Hl. unfold replaceLineStart. destruct (startsWith pre l); [|exact Hl].
  apply oneLine_app; [exact Hn | now apply oneLine_skipn].
Qed.

Lemma oneLine_eraseLine pre l : oneLine l -> oneLine (eraseLine pre l).
Proof. intros Hl. unfold eraseLine. destruct (startsWith pre l); [constructor | exact Hl]. Qed.

Lemma oneLine_units_checked (l : jsString) :
  forallb (fun u => negb (isLineTerminator u)) l = true -> oneLine l.
Proof.
  intros H. unfold oneLine. rewrite forallb_forall in H. apply Forall_forall.
  intros u Hu. specialize (H u Hu). now destruct (isLineTerminator u).
Qed.

Lemma splitLines_applyCorrections (s : jsString) :
  splitLines (applyCorrections s) =
  (correctLine (fst (splitLines s)),
   map (fun ul => (fst ul, correctLine (snd ul))) (snd (splitLines s))).
Proof.
  unfold applyCorrections.
  repeat (rewrite splitLines_onLines;
          [| intros l Hl;
             first [ apply oneLine_eraseLine; exact Hl
                   | apply oneLine_replaceLineStart;
                     [apply oneLine_units_checked; reflexivity | exact Hl] ] ]).
  cbn [fst snd]. rewrite !map_map. reflexivity.
Qed.

Lemma oneLine_correctLine (l : jsString) : oneLine l -> oneLine (correctLine l).
Proof.
  intros Hl. unfold correctLine.
  repeat first [ apply oneLine_eraseLine
               | apply oneLine_replaceLineStart;
                 [apply oneLine_units_checked; reflexivity |] ].
  exact Hl.
Qed.

Lemma applyCorrections_oneLine (l : jsString) :
  oneLine l -> applyCorrections l = correctLine l.
Proof.
  intros Hl. rewrite <- (joinLines_splitLines (applyCorrections l)).
  rewrite splitLines_applyCorrections, (splitLines_oneLine l Hl).
  unfold joinLines. cbn. apply app_nil_r.
Qed.

(** X1. The corrections work line by line: the line terminators of
    the script are kept as they are, and the lines of the result are
    the results of correcting each line on its own. *)
Theorem applyCorrections_line_by_line (s : jsString) :
  linesOf (applyCorrections s) = map applyCorrections (linesOf s)
  /\ terminatorsOf (applyCorrections s) = terminatorsOf s.
Proof.
  unfold linesOf, terminatorsOf. rewrite splitLines_applyCorrections. cbn [fst snd].
  destruct (splitLines_lines s) as [Hl Hrest]. split.
  - cbn [map]. rewrite (applyCorrections_oneLine _ Hl). f_equal.
    rewrite !map_map. apply map_ext_in. intros [u l] Hin. cbn [fst snd].
    rewrite Forall_forall in Hrest. destruct (Hrest _ Hin) as [_ Hl'].
    symmetry. now apply applyCorrections_oneLine.
  - rewrite map_map. reflexivity.
Qed.

(** *** What the corrections do to a line *)

Lemma startsWith_true (pre l : jsString) :
  startsWith pre l = true -> l = pre ++ skipn (length pre) l.
Proof.
  revert l. induction pre as [|p pre IH]; intros l H; [reflexivity|].
  destruct l as [|u l]; [discriminate|]. cbn in H.
  apply andb_true_iff in H as [Hp Hl]. apply N.eqb_eq in Hp. subst u.
  cbn. f_equal. now apply IH.
Qed.

Lemma startsWith_app (pre rest l : jsString) :
  startsWith (pre ++ rest) l = true -> startsWith pre l = true.
Proof.
  revert l. induction pre as [|p pre IH]; intros l H; [reflexivity|].
  destruct l as [|u l]; [discriminate|]. cbn in *.
  apply andb_true_iff in H as [Hp Hl]. rewrite Hp. cbn. now apply IH.
Qed.

(** Case analysis on the first test of the chain that still looks at
    the line [l] itself: either the line begins with the literal, and
    from there on every test is decided by that beginning, or the line
    goes on unchanged to the next test. *)
Ltac line_case l :=
  match goal with
  | |- context [startsWith ?p l] =>
      let H := fresh "H" in
      let r := fresh "r" in
      destruct (startsWith p l) eqn:H; cbv iota;
      [ apply startsWith_true in H;
        set (r := skipn (length p) l) in *; clearbody r; subst l; cbn
      | ]
  end.

Ltac line_cases l :=
  unfold correctLine, replaceLineStart, eraseLine; repeat line_case l.

Lemma correctLine_never_pushes (l : jsString) :
  startsWith (units "git push ") (correctLine l) = false
  /\ startsWith (units "git remote ") (correctLine l) = false.
Proof. line_cases l; auto. Qed.

Lemma correctLine_flags (l : jsString) :
  (startsWith (units "git commit ") (correctLine l) = true ->
   startsWith (units "git commit -a ") (correctLine l) = true)
  /\ (startsWith (units "npx ") (correctLine l) = true ->
      startsWith (units "npx --yes ") (correctLine l) = true)
  /\ (startsWith (units "echo ") (correctLine l) = true ->
      startsWith (units "echo -e ") (correctLine l) = true).
Proof. line_cases l; repeat split; intros; try congruence; auto. Qed.

Lemma correctLine_other (l : jsString) :
  startsWith (units "npx ") l = false ->
  startsWith (units "echo ") l = false ->
  startsWith (units "git push ") l = false ->
  startsWith (units "git remote ") l = false ->
  startsWith (units "git commit ") l = false ->
  correctLine l = l.
Proof.
  intros H1 H2 H3 H4 H5.
  assert (H6 : startsWith commitMessage l = false).
  { destruct (startsWith commitMessage l) eqn:E; [|reflexivity].
    apply (startsWith_app (units "git commit ") (units "-m " ++ [34%N])) in E.
    congruence. }
  unfold correctLine, replaceLineStart, eraseLine.
  rewrite H1, H2, H3, H4, H6, H5. reflexivity.
Qed.

Lemma linesOf_applyCorrections (s : jsString) :
  linesOf (applyCorrections s) = map correctLine (linesOf s).
Proof.
  unfold linesOf. rewrite splitLines_applyCorrections. cbn [fst snd map].
  rewrite !map_map. reflexivity.
Qed.

(** X2. No line of the corrected script begins with [git push ] or
    with [git remote ]: whatever the generated script says, what runs
    in the container neither pushes nor touches the remotes through a
    line of its own. *)
Theorem applyCorrections_never_pushes (s l : jsString) :
  In l (linesOf (applyCorrections s)) ->
  startsWith (units "git push ") l = false
  /\ startsWith (units "git remote ") l = false.
Proof.
  rewrite linesOf_applyCorrections. intros Hin.
  apply in_map_iff in Hin as (l0 & <- & _). apply correctLine_never_pushes.
Qed.

Lemma applyCorrections_never_pushes_witness :
  In [] (linesOf (applyCorrections sampleScript)) /\
  startsWith (units "git push ") [] = false /\
  startsWith (units "git remote ") [] = false.
Proof.
  assert (H : In [] (linesOf (applyCorrections sampleScript))).
  { vm_compute. right. right. left. reflexivity. }
  split; [exact H|].
  exact (applyCorrections_never_pushes sampleScript [] H).
Defined.

(** X3. In the corrected script every line that begins with
    [git commit ] begins with [git commit -a ], every line that begins
    with [npx ] begins with [npx --yes ], and every line that begins
    with [echo ] begins with [echo -e ]. *)
Theorem applyCorrections_flags (s l : jsString) :
  In l (linesOf (applyCorrections s)) ->
  (startsWith (units "git commit ") l = true ->
   startsWith (units "git commit -a ") l = true)
  /\ (startsWith (units "npx ") l = true ->
      startsWith (units "npx --yes ") l = true)
  /\ (startsWith (units "echo ") l = true ->
      startsWith (units "echo -e ") l = true).
Proof.
  rewrite linesOf_applyCorrections. intros Hin.
  apply in_map_iff in Hin as (l0 & <- & _). apply correctLine_flags.
Qed.

Lemma applyCorrections_flags_witness :
  let l := units "npx --yes create-react-app x" in
  In l (linesOf (applyCorrections sampleScript)) /\
  startsWith (units "npx ") l = true /\
  startsWith (units "npx --yes ") l = true.
Proof.
  cbv zeta.
  assert (H : In (units "npx --yes create-react-app x")
                 (linesOf (applyCorrections sampleScript))).
  { vm_compute. left. reflexivity. }
  split; [exact H|]. split; [reflexivity|].
  apply (proj1 (proj2 (applyCorrections_flags sampleScript _ H))). reflexivity.
Defined.

(** X4. A script in which no line begins with one of the five
    literals [npx ], [echo ], [git push ], [git remote ] and
    [git commit ] comes out of the corrections unchanged, terminators
    included. *)
Theorem applyCorrections_untouched (s : jsString) :
  (forall l, In l (linesOf s) -> untouched l) ->
  applyCorrections s = s.
Proof.
  intros H.
  assert (Hline : forall l, In l (linesOf s) -> correctLine l = l).
  { intros l Hl. destruct (H l Hl) as (H1 & H2 & H3 & H4 & H5).
    now apply correctLine_other. }
  rewrite <- (joinLines_splitLines (applyCorrections s)).
  rewrite splitLines_applyCorrections.
  rewrite <- (joinLines_splitLines s) at 3.
  unfold linesOf in Hline. f_equal.
  destruct (splitLines s) as [l0 rest]. cbn [fst snd] in *. f_equal.
  - apply Hline. left. reflexivity.
  - rewrite <- (map_id rest) at 2. apply map_ext_in. intros [u l] Hin. cbn [fst snd].
    f_equal. apply Hline. right. apply in_map_iff. exists (u, l). auto.
Qed.

Lemma applyCorrections_untouched_witness :
  let s := units "mkdir app" ++ [13; 10]%N ++ units "cd app" in
  (forall l, In l (linesOf s) -> untouched l) /\ applyCorrections s = s.
Proof.
  cbv zeta.
  assert (H : forall l, In l (linesOf (units "mkdir app" ++ [13; 10]%N ++ units "cd app")) ->
                        untouched l).
  { intros l Hl. vm_compute in Hl.
    repeat (destruct Hl as [<-|Hl]; [repeat split|]). destruct Hl. }
  split; [exact H|].
  exact (applyCorrections_untouched _ H).
Defined.

(** X5. A line [git commit -m] with a quoted message comes out with
    the flag [-a] and with the worker emoji in front of the message:
    the fifth and the sixth replacement compose.  A [git commit] line
    of another form only gets the flag. *)
Theorem applyCorrections_commit (rest : jsString) :
  oneLine rest ->
  applyCorrections (commitMessage ++ rest) =
    units "git commit -a -m " ++ [34; 55357; 56439; 55356; 57340; 32]%N ++ rest
  /\ (startsWith commitMessage (units "git commit " ++ rest) = false ->
      applyCorrections (units "git commit " ++ rest) = units "git commit -a " ++ rest).
Proof.
  intros Hrest. split.
  - rewrite applyCorrections_oneLine.
    + reflexivity.
    + apply oneLine_app; [apply oneLine_units_checked; reflexivity | exact Hrest].
  - intros H. rewrite applyCorrections_oneLine.
    + unfold correctLine, replaceLineStart, eraseLine. cbn. cbn in H. rewrite H. reflexivity.
    + apply oneLine_app; [apply oneLine_units_checked; reflexivity | exact Hrest].
Qed.

Lemma applyCorrections_commit_witness :
  oneLine (units "first" ++ [34%N]) /\
  applyCorrections (commitMessage ++ units "first" ++ [34%N]) =
    units "git commit -a -m " ++ [34; 55357; 56439; 55356; 57340; 32]%N
    ++ units "first" ++ [34%N].
Proof.
  assert (H : oneLine (units "first" ++ [34%N])).
  { apply oneLine_units_checked. reflexivity. }
  split; [exact H|].
  exact (proj1 (applyCorrections_commit _ H)).
Defined.

(** ** Runs that are fulfilled, runs that fail *)

Lemma bind_fulfilled {A B} (m : Async A) (k : A -> Async B) w b w' :
  (x <- m ;; k x) w = (Fulfilled b, w') ->
  exists a w1, m w = (Fulfilled a, w1) /\ k a w1 = (Fulfilled b, w').
Proof.
  rewrite run_bind. destruct (m w) as [[a|e| |c] w1]; try discriminate.
  intros H. exists a, w1. auto.
Qed.

Lemma bind_failed {A B} (m : Async A) (k : A -> Async B) w :
  (forall a, fst (m w) <> Fulfilled a) ->
  snd ((x <- m ;; k x) w) = snd (m w) /\
  ((exists e, fst (m w) = Rejected e /\ fst ((x <- m ;; k x) w) = Rejected e) \/
   (fst (m w) = Suspended /\ fst ((x <- m ;; k x) w) = Suspended) \/
   (exists c, fst (m w) = Crashed c /\ fst ((x <- m ;; k x) w) = Crashed c)).
Proof.
  intros H. rewrite run_bind. destruct (m w) as [[a|e| |c] w1]; cbn [fst snd] in *.
  - destruct (H a eq_refl).
  - split; [reflexivity|]. left. eauto.
  - split; [reflexivity|]. right. left. auto.
  - split; [reflexivity|]. right. right. eauto.
Qed.

Section Refusals.

Variable rt : Runtime.
Variable interrupts : nat -> bool.

(** A request the runtime refuses when it reaches it: the [await]
    rejects with the runtime's error, unless the process ends
    meanwhile. *)
Lemma await_refused {A} r (act : endpoint A) e w :
  fst (act (arrival rt interrupts r w)) = Err e ->
  fst (await rt interrupts r act w) = Rejected e \/
  exists c, fst (await rt interrupts r act w) = Crashed c.
Proof.
  unfold arrival. intros Hact. unfold await. rewrite run_bind. cbn [emit].
  rewrite run_bind.
  pose proof (settles_turn rt interrupts (record (EvRequest r) w)) as Hs1.
  destruct (turn rt interrupts (record (EvRequest r) w)) as [[[]|e1| |c1] w1];
    cbn [fst snd] in Hs1, Hact; try contradiction.
  - rewrite run_bind. unfold perform.
    destruct (act w1) as [res s]. cbn [fst] in Hact. subst res. rewrite run_bind.
    pose proof (settles_turn rt interrupts (set_state s w1)) as Hs2.
    destruct (turn rt interrupts (set_state s w1)) as [[[]|e2| |c2] w2];
      cbn [fst] in Hs2; try contradiction.
    + left. reflexivity.
    + right. exists c2. reflexivity.
  - right. exists c1. reflexivity.
Qed.

Lemma await_not_fulfilled {A} r (act : endpoint A) e w :
  fst (act (arrival rt interrupts r w)) = Err e ->
  forall a, fst (await rt interrupts r act w) <> Fulfilled a.
Proof.
  intros Hact a. destruct (await_refused r act e w Hact) as [H|[c H]];
    rewrite H; discriminate.
Qed.

End Refusals.

(** ** The requests of the script itself *)

Lemma plainRequests_app t1 t2 :
  plainRequests (t1 ++ t2) = plainRequests t1 ++ plainRequests t2.
Proof. unfold plainRequests, requestsOf. rewrite flat_map_app. apply filter_app. Qed.

Lemma plainRequests_none t : Forall notPlainRequest t -> plainRequests t = [].
Proof.
  induction 1 as [|ev t He _ IH]; [reflexivity|].
  change (ev :: t) with ([ev] ++ t). rewrite plainRequests_app, IH, app_nil_r.
  destruct ev as [| |r| |]; try reflexivity.
  unfold plainRequests. cbn. cbn in He. rewrite He. reflexivity.
Qed.

Lemma interruptEvent_notPlainRequest e : interruptEvent e -> notPlainRequest e.
Proof.
  destruct e as [| |r| |]; cbn; auto.
  destruct r; cbn; try contradiction. destruct o; [auto | contradiction].
Qed.

Lemma appends_plain {A} (m : Async A) w :
  appends notPlainRequest m ->
  plainRequests (trace (snd (m w))) = plainRequests (trace w).
Proof.
  intros Hm. destruct (Hm w) as (t & Ht & HP).
  rewrite Ht, plainRequests_app, (plainRequests_none t HP). apply app_nil_r.
Qed.

Section PlainRequests.

Variable rt : Runtime.
Variable interrupts : nat -> bool.

Lemma await_plain {A} r (act : endpoint A) w :
  isForcedStop r = false ->
  plainRequests (trace (snd (await rt interrupts r act w))) =
  plainRequests (trace w) ++ [r].
Proof.
  intros Hr.
  destruct (begins_await rt interrupts interruptEvent r act (fun _ H => H) w)
    as (t & Ht & HP).
  rewrite Ht. change (EvRequest r :: t) with ([EvRequest r] ++ t).
  rewrite !plainRequests_app.
  rewrite (plainRequests_none t)
    by (eapply Forall_impl; [apply interruptEvent_notPlainRequest | exact HP]).
  rewrite app_nil_r. unfold plainRequests at 2. cbn. rewrite Hr. reflexivity.
Qed.

Lemma waitForStreamEnd_plain stream w :
  plainRequests (trace (snd (waitForStreamEnd rt interrupts stream w))) =
  plainRequests (trace w).
Proof.
  apply appends_plain. unfold waitForStreamEnd.
  destruct (on _ _ _); apply appends_awaitPromise;
    solve [apply interruptEvent_notPlainRequest | intros; exact I].
Qed.

(** The requests of a fulfilled exec. *)
Lemma runCommandInContainer_plain container command w w' :
  runCommandInContainer rt interrupts container command w = (Fulfilled tt, w') ->
  exists exec,
    plainRequests (trace w') =
    plainRequests (trace w) ++
    [ContainerExec container (execOptions command); ExecStart exec execStartOptions].
Proof.
  unfold runCommandInContainer. intros H.
  apply bind_fulfilled in H as (exec & w1 & H1 & H).
  apply bind_fulfilled in H as (src & w2 & H2 & H).
  apply bind_fulfilled in H as (stream & w3 & H3 & H).
  pose proof (await_plain (ContainerExec container (execOptions command))
                (rt_exec rt container (execOptions command)) w eq_refl) as P1.
  rewrite H1 in P1. cbn [snd] in P1.
  pose proof (await_plain (ExecStart exec execStartOptions)
                (rt_exec_start rt exec execStartOptions) w1 eq_refl) as P2.
  rewrite H2 in P2. cbn [snd] in P2.
  assert (w3 = w2) as ->.
  { unfold sync in H3. destruct (on (newStream src) "data" LogCommandOutput);
      [rewrite run_ret in H3 | unfold throw in H3]; inversion H3; reflexivity. }
  pose proof (waitForStreamEnd_plain stream w2) as P3. rewrite H in P3. cbn [snd] in P3.
  exists exec. rewrite P3, P2, P1, <- app_assoc. reflexivity.
Qed.

Lemma startContainer_plain container w stream w' :
  startContainer rt interrupts container w = (Fulfilled stream, w') ->
  plainRequests (trace w') =
  plainRequests (trace w) ++
  [ContainerStart container; ContainerLogs container logsOptions].
Proof.
  unfold startContainer. intros H.
  apply bind_fulfilled in H as ([] & w0 & H0 & H).
  apply bind_fulfilled in H as ([] & w1 & H1 & H).
  apply bind_fulfilled in H as (src & w2 & H2 & H).
  apply bind_fulfilled in H as (s & w3 & H3 & H).
  pose proof (await_plain (ContainerStart container) (rt_start rt container) w0 eq_refl) as P1.
  rewrite H1 in P1. cbn [snd] in P1.
  pose proof (await_plain (ContainerLogs container logsOptions)
                (rt_logs rt container logsOptions) w1 eq_refl) as P2.
  rewrite H2 in P2. cbn [snd] in P2.
  assert (w3 = w2) as ->.
  { unfold sync in H3. destruct (on (newStream src) "data" LogChunk);
      [rewrite run_ret in H3 | unfold throw in H3]; inversion H3; reflexivity. }
  rewrite run_ret in H. inversion H; subst.
  unfold process_on_SIGINT in H0. inversion H0; subst. clear H0 H.
  cbn [trace add_listener record] in P1.
  rewrite plainRequests_app in P1. cbn in P1. rewrite app_nil_r in P1.
  rewrite P2, P1, <- app_assoc. reflexivity.
Qed.

Lemma copyFileToContainer_plain container localFilePath containerFilePath w :
  plainRequests (trace (snd (copyFileToContainer rt interrupts container
                               localFilePath containerFilePath w))) =
  plainRequests (trace w) ++
  [ContainerPutArchive container (archiveOf localFilePath) {| path := containerFilePath |}].
Proof.
  destruct (copyFileToContainer_begins rt interrupts container localFilePath
              containerFilePath w) as (t & Ht & HP).
  rewrite Ht.
  change (EvRequest ?r :: t) with ([EvRequest r] ++ t).
  rewrite !plainRequests_app.
  rewrite (plainRequests_none t)
    by (eapply Forall_impl; [apply interruptEvent_notPlainRequest | exact HP]).
  rewrite app_nil_r. reflexivity.
Qed.

Lemma console_log_plain line w :
  plainRequests (trace (snd (console_log line w))) = plainRequests (trace w).
Proof.
  unfold console_log, emit. cbn [snd trace record].
  rewrite plainRequests_app. cbn. apply app_nil_r.
Qed.

End PlainRequests.

(** ** runCommandInContainer *)

Lemma awaitPromise_chunks_only rt src chunks : forall w,
  awaitPromise rt quiet
    {| source := src; listeners := [("data", LogCommandOutput); ("end", ResolveWait)] |}
    (map Data chunks) PPending w =
  (Suspended,
   {| container_state := container_state w; localFiles := localFiles w;
      sigintListeners := sigintListeners w;
      clock := length chunks + clock w;
      trace := trace w ++ chunkEvents chunks |}).
Proof.
  induction chunks as [|c chunks IH]; intros w.
  - cbn. rewrite app_nil_r. destruct w; reflexivity.
  - cbn [map awaitPromise]. rewrite run_bind, turn_quiet, run_bind.
    cbn -[append awaitPromise]. rewrite IH. cbn -[append].
    rewrite <- !app_assoc. cbn -[append].
    rewrite Nat.add_succ_r. reflexivity.
Qed.

(** X6. When the runtime grants the exec session and attaches to it a
    stream that delivers chunks and then ends, and no interrupt
    arrives, the call returns, and every chunk has been logged, in
    order, as [Command output: chunk].  What the stream emits after
    its first "end" plays no part. *)
Theorem runCommandInContainer_logs_chunks rt container command exec src chunks after w :
  fst (rt_exec rt container (execOptions command)
         (arrival rt quiet (ContainerExec container (execOptions command)) w)) = Ok exec ->
  fst (rt_exec_start rt exec execStartOptions
         (arrival rt quiet (ExecStart exec execStartOptions)
            (snd (await rt quiet (ContainerExec container (execOptions command))
                    (rt_exec rt container (execOptions command)) w)))) = Ok src ->
  on_throws src = None ->
  events src = map Data chunks ++ End :: after ->
  fst (runCommandInContainer rt quiet container command w) = Fulfilled tt
  /\ exists t,
      trace (snd (runCommandInContainer rt quiet container command w)) = trace w ++ t
      /\ emittedOf t = map Data chunks ++ [End]
      /\ subsequence (map (fun c => "Command output: " ++ c)%string chunks) (consoleOf t).
Proof.
  intros Hexec Hstart Hon Hev.
  destruct (runCommandInContainer_chunks_then_end rt container command exec src chunks
              after w Hexec Hstart Hon Hev) as (H1 & H2).
  split; [exact H1|]. eexists. split; [exact H2|]. split.
  - rewrite !emittedOf_app, emittedOf_chunkEvents. reflexivity.
  - rewrite !consoleOf_app, consoleOf_chunkEvents. cbn. rewrite app_nil_r.
    apply subsequence_refl.
Qed.

Lemma runCommandInContainer_logs_chunks_witness :
  let rt := withExecStream twoChunks dockerLike in
  let run := runCommandInContainer rt quiet c0ffee ["ls"] (runningWorld []) in
  fst (rt_exec rt c0ffee (execOptions ["ls"])
         (arrival rt quiet (ContainerExec c0ffee (execOptions ["ls"])) (runningWorld [])))
  = Ok {| exec_id := "ls" |}
  /\ fst run = Fulfilled tt
  /\ exists t,
      trace (snd run) = trace (runningWorld []) ++ t
      /\ emittedOf t = [Data "one"; Data "two"; End]
      /\ subsequence ["Command output: one"; "Command output: two"] (consoleOf t).
Proof.
  cbv zeta. split; [reflexivity|].
  apply (runCommandInContainer_logs_chunks (withExecStream twoChunks dockerLike) c0ffee
           ["ls"] {| exec_id := "ls" |} twoChunks ["one"; "two"] [] (runningWorld []));
    reflexivity.
Defined.

(** X7. There is no timeout: when the runtime grants the exec session
    and attaches to it a stream that delivers chunks and never emits
    "end" (nor "error"), and no interrupt arrives, the call does not
    return.  The chunks are logged, and the promise stays pending for
    good. *)
Theorem runCommandInContainer_waits_forever rt container command exec src chunks w :
  fst (rt_exec rt container (execOptions command)
         (arrival rt quiet (ContainerExec container (execOptions command)) w)) = Ok exec ->
  fst (rt_exec_start rt exec execStartOptions
         (arrival rt quiet (ExecStart exec execStartOptions)
            (snd (await rt quiet (ContainerExec container (execOptions command))
                    (rt_exec rt container (execOptions command)) w)))) = Ok src ->
  on_throws src = None ->
  events src = map Data chunks ->
  fst (runCommandInContainer rt quiet container command w) = Suspended
  /\ exists t,
      trace (snd (runCommandInContainer rt quiet container command w)) = trace w ++ t
      /\ emittedOf t = map Data chunks
      /\ subsequence (map (fun c => "Command output: " ++ c)%string chunks) (consoleOf t).
Proof.
  intros Hexec Hstart Hon Hev.
  destruct (runCommandInContainer_granted rt container command exec src w Hexec Hstart Hon)
    as (w2 & Ht & Hrun).
  rewrite Hrun, Hev, awaitPromise_chunks_only. cbn [fst snd trace].
  split; [reflexivity|]. eexists. split; [rewrite Ht, <- app_assoc; reflexivity|]. split.
  - rewrite !emittedOf_app, emittedOf_chunkEvents. reflexivity.
  - rewrite !consoleOf_app, consoleOf_chunkEvents. cbn.
    apply subsequence_refl.
Qed.

Lemma runCommandInContainer_waits_forever_witness :
  let rt := withExecStream endless dockerLike in
  let run := runCommandInContainer rt quiet c0ffee ["ls"] (runningWorld []) in
  fst (rt_exec rt c0ffee (execOptions ["ls"])
         (arrival rt quiet (ContainerExec c0ffee (execOptions ["ls"])) (runningWorld [])))
  = Ok {| exec_id := "ls" |}
  /\ fst run = Suspended
  /\ exists t,
      trace (snd run) = trace (runningWorld []) ++ t
      /\ emittedOf t = [Data "one"; Data "two"]
      /\ subsequence ["Command output: one"; "Command output: two"] (consoleOf t).
Proof.
  cbv zeta. split; [reflexivity|].
  apply (runCommandInContainer_waits_forever (withExecStream endless dockerLike) c0ffee
           ["ls"] {| exec_id := "ls" |} endless ["one"; "two"] (runningWorld []));
    reflexivity.
Defined.

(** X8. When the runtime refuses to create the exec session, the call
    is rejected with the runtime's error (unless the process ends
    meanwhile); the session is never started: besides the request for
    the session, with the command and both outputs attached, the trace
    holds only what an interrupt adds. *)
Theorem runCommandInContainer_exec_refused rt interrupts container command e w :
  fst (rt_exec rt container (execOptions command)
         (arrival rt interrupts (ContainerExec container (execOptions command)) w))
  = Err e ->
  (exists t,
      trace (snd (runCommandInContainer rt interrupts container command w)) =
      trace w ++
      EvRequest (ContainerExec container
                   {| exec_Cmd := command; AttachStdout := true; AttachStderr := true |})
      :: t
      /\ Forall interruptEvent t)
  /\ (fst (runCommandInContainer rt interrupts container command w) = Rejected e \/
      exists c, fst (runCommandInContainer rt interrupts container command w) = Crashed c).
Proof.
  intros Href. unfold runCommandInContainer.
  set (first := await rt interrupts (ContainerExec container (execOptions command))
                  (rt_exec rt container (execOptions command))).
  destruct (bind_failed first
              (fun exec =>
                 src <- await rt interrupts (ExecStart exec execStartOptions)
                              (rt_exec_start rt exec execStartOptions) ;;
                 stream <- sync (on (newStream src) "data" LogCommandOutput) ;;
                 waitForStreamEnd rt interrupts stream)
              w (await_not_fulfilled rt interrupts
                   (ContainerExec container (execOptions command))
                   (rt_exec rt container (execOptions command)) e w Href))
    as (Hw & Ho).
  pose proof (await_refused rt interrupts
                (ContainerExec container (execOptions command))
                (rt_exec rt container (execOptions command)) e w Href) as Hr.
  fold first in Hr.
  split.
  - rewrite Hw. apply (begins_await rt interrupts interruptEvent); auto.
  - destruct Ho as [(e' & He' & Ho)|[(Hs & _)|(c & _ & Ho)]].
    + destruct Hr as [H|[c H]]; rewrite H in He'; inversion He'; subst.
      left. exact Ho.
    + destruct Hr as [H|[c H]]; rewrite H in Hs; discriminate.
    + right. eauto.
Qed.

Lemma runCommandInContainer_exec_refused_witness :
  let run := runCommandInContainer dockerLike quiet c0ffee ["ls"] stoppedWorld in
  fst (rt_exec dockerLike c0ffee (execOptions ["ls"])
         (arrival dockerLike quiet (ContainerExec c0ffee (execOptions ["ls"])) stoppedWorld))
  = Err notRunning
  /\ fst run = Rejected notRunning
  /\ requestsOf (trace (snd run)) = [ContainerExec c0ffee (execOptions ["ls"])].
Proof.
  cbv zeta. split; [reflexivity|]. split; [|reflexivity].
  destruct (proj2 (runCommandInContainer_exec_refused dockerLike quiet
                     c0ffee ["ls"] notRunning stoppedWorld eq_refl)) as [H|[c H]].
  - exact H.
  - discriminate H.
Defined.

(** ** Interrupt listeners are registered once and never removed *)

Lemma silent_ret {A} (a : A) : silent (ret a).
Proof. intros w. reflexivity. Qed.

Lemma silent_throw {A} e : silent (@throw A e).
Proof. intros w. reflexivity. Qed.

Lemma silent_suspend {A} : silent (@suspend A).
Proof. intros w. reflexivity. Qed.

Lemma silent_die {A} c : silent (@die A c).
Proof. intros w. reflexivity. Qed.

Lemma silent_emit e : silent (emit e).
Proof. intros w. reflexivity. Qed.

Lemma silent_sync {A} (r : reply A) : silent (sync r).
Proof. destruct r; [apply silent_ret | apply silent_throw]. Qed.

Lemma silent_perform {A} (act : endpoint A) : silent (perform act).
Proof. intros w. unfold perform. destruct (act w). reflexivity. Qed.

Lemma silent_bind {A B} (m : Async A) (k : A -> Async B) :
  silent m -> (forall a, silent (k a)) -> silent (x <- m ;; k x).
Proof.
  intros Hm Hk w. rewrite run_bind. specialize (Hm w).
  destruct (m w) as [[a|e| |c] w1]; cbn [snd] in *; auto.
  rewrite (Hk a w1). exact Hm.
Qed.

Lemma silent_forEach {A} (f : A -> Async unit) (l : list A) :
  (forall x, silent (f x)) -> silent (forEach f l).
Proof.
  intros Hf. induction l as [|x l IH]; cbn [forEach].
  - apply silent_ret.
  - apply silent_bind; auto.
Qed.

#[export] Hint Resolve silent_ret silent_throw silent_suspend silent_die silent_emit
  silent_sync silent_perform silent_bind silent_forEach : async.

Section Listeners.

Variable rt : Runtime.
Variable interrupts : nat -> bool.

Lemma silent_deliverSIGINT : silent (deliverSIGINT rt).
Proof.
  unfold deliverSIGINT. apply silent_bind; [apply silent_emit|]. intros _.
  assert (H : forall l, silent (match l with
                                | [] => die KilledBySIGINT
                                | _ => forEach handlerCall l ;; forEach (handlerReply rt) l
                                end : Async unit)).
  { intros [|h hs]; [apply silent_die|].
    apply silent_bind.
    - apply silent_forEach. intros [c]. unfold handlerCall, console_log. auto with async.
    - intros _. apply silent_forEach. intros [c]. unfold handlerReply.
      apply silent_bind; [apply silent_perform|]. intros [u|e]; auto with async. }
  intros w. specialize (H (sigintListeners w) w).
  destruct (sigintListeners w); exact H.
Qed.

Lemma silent_turn : silent (turn rt interrupts).
Proof.
  intros w. unfold turn. destruct (interrupts (clock w)).
  - apply (silent_deliverSIGINT (advance w)).
  - reflexivity.
Qed.

Lemma silent_await {A} r (act : endpoint A) : silent (await rt interrupts r act).
Proof.
  unfold await, settle.
  repeat (apply silent_bind; [auto using silent_turn with async|]; intros ?).
  apply silent_sync.
Qed.

Lemma silent_runListeners ev ls : forall p, silent (runListeners ev p ls).
Proof.
  induction ls as [|l ls IH]; intros p; cbn [runListeners].
  - apply silent_ret.
  - apply silent_bind; [|intros p'; apply IH].
    destruct l; cbn [runListener]; unfold console_log; auto with async.
Qed.

Lemma silent_emitEvent s ev p : silent (emitEvent s ev p).
Proof.
  unfold emitEvent. apply silent_bind; [apply silent_emit|].
  intros _. destruct ev; try apply silent_runListeners.
  destruct (listenersFor s (eventName (Error e))); [apply silent_die|].
  apply silent_runListeners.
Qed.

Lemma silent_awaitPromise s evs : forall p, silent (awaitPromise rt interrupts s evs p).
Proof.
  induction evs as [|ev rest IH]; intros p; destruct p; cbn [awaitPromise];
    auto with async.
  apply silent_bind; [apply silent_turn|]. intros _.
  apply silent_bind; [apply silent_emitEvent | intros p'; apply IH].
Qed.

Lemma silent_waitForStreamEnd stream : silent (waitForStreamEnd rt interrupts stream).
Proof. unfold waitForStreamEnd. destruct (on _ _ _); apply silent_awaitPromise. Qed.

Lemma silent_runCommandInContainer container command :
  silent (runCommandInContainer rt interrupts container command).
Proof.
  unfold runCommandInContainer.
  apply silent_bind; [apply silent_await|]. intros exec.
  apply silent_bind; [apply silent_await|]. intros src.
  apply silent_bind; [apply silent_sync|]. intros stream.
  apply silent_waitForStreamEnd.
Qed.

Lemma silent_copyFileToContainer container localFilePath containerFilePath :
  silent (copyFileToContainer rt interrupts container localFilePath containerFilePath).
Proof.
  assert (Hs : forall archive options,
             silent (sendArchive rt container archive options)).
  { intros archive options w. apply sendArchive_world. }
  unfold copyFileToContainer, settle.
  repeat (apply silent_bind; [auto using silent_turn with async|]; intros ?).
  apply silent_sync.
Qed.

Lemma silent_tearDown container : silent (tearDown rt interrupts container).
Proof.
  unfold tearDown, console_log.
  repeat (apply silent_bind; [auto using silent_await with async|]; intros ?).
  apply silent_emit.
Qed.

(** From its first statement on, whatever happens next, a call of
    [startContainer] leaves exactly one more listener. *)
Lemma startContainer_listeners container w :
  sigintListeners (snd (startContainer rt interrupts container w)) =
  sigintListeners w ++ [ForceStop container].
Proof.
  assert (Hrest : silent (await rt interrupts (ContainerStart container)
                                (rt_start rt container) ;;
                          src <- await rt interrupts (ContainerLogs container logsOptions)
                                       (rt_logs rt container logsOptions) ;;
                          stream <- sync (on (newStream src) "data" LogChunk) ;;
                          ret stream)).
  { apply silent_bind; [apply silent_await|]. intros _.
    apply silent_bind; [apply silent_await|]. intros src.
    apply silent_bind; [apply silent_sync|]. intros stream. apply silent_ret. }
  unfold startContainer. rewrite run_bind. cbn [process_on_SIGINT].
  exact (Hrest (add_listener (ForceStop container)
                  (record (EvOnSIGINT (ForceStop container)) w))).
Qed.

Lemma runBuild_listeners container w :
  sigintListeners (snd (runBuild rt interrupts container w)) =
  sigintListeners w ++ [ForceStop container].
Proof.
  assert (Hrest : silent (console_log ("Container " ++ id container ++ " started.") ;;
                          runCommandInContainer rt interrupts container
                            ["mkdir"; containerHome] ;;
                          copyFileToContainer rt interrupts container buildScriptPath
                            containerHome ;;
                          copyFileToContainer rt interrupts container
                            "./create_github_repo.sh" containerHome ;;
                          runCommandInContainer rt interrupts container
                            ["bash"; (containerHome ++ "create_github_repo.sh")%string])).
  { unfold console_log.
    apply silent_bind; [apply silent_emit|]. intros _.
    apply silent_bind; [apply silent_runCommandInContainer|]. intros _.
    apply silent_bind; [apply silent_copyFileToContainer|]. intros _.
    apply silent_bind; [apply silent_copyFileToContainer|]. intros _.
    apply silent_runCommandInContainer. }
  unfold runBuild. rewrite run_bind.
  pose proof (startContainer_listeners container w) as Hs.
  destruct (startContainer rt interrupts container w) as [[s|e| |c] w1];
    cbn [snd] in *; try exact Hs.
  rewrite <- Hs. exact (Hrest w1).
Qed.

End Listeners.

(** X9. The script never removes an interrupt listener and registers
    at most one.  After any run of the main script, completed or not,
    the listeners are those it found, followed, if the container was
    created and the run is not a dry run, by the one forced-stop
    listener of that container: it is still registered after the
    container has been removed. *)
Theorem main_never_unregisters rt interrupts dryRun environment w :
  sigintListeners (snd (main rt interrupts dryRun environment w)) =
  sigintListeners w ++
  match fst (createContainer rt interrupts baseImage environment w) with
  | Fulfilled container => if dryRun then [] else [ForceStop container]
  | _ => []
  end.
Proof.
  unfold main. rewrite run_bind.
  pose proof (silent_await rt interrupts
                (DockerCreateContainer (createOptions baseImage environment))
                (rt_createContainer rt (createOptions baseImage environment)) w) as Hc.
  fold (createContainer rt interrupts baseImage environment) in Hc.
  destruct (createContainer rt interrupts baseImage environment w)
    as [[c|e| |cr] w1]; cbn [fst snd] in *; rewrite ?app_nil_r; try exact Hc.
  rewrite run_bind. cbn [console_log emit].
  set (w2 := record _ w1). destruct dryRun.
  - rewrite app_nil_r. cbn. exact Hc.
  - rewrite run_bind.
    pose proof (runBuild_listeners rt interrupts c w2) as Hb.
    destruct (runBuild rt interrupts c w2) as [[[]|e| |cr] w3]; cbn [snd] in *;
      try (rewrite Hb; unfold w2; cbn [sigintListeners record]; rewrite Hc; reflexivity).
    rewrite (silent_tearDown rt interrupts c w3), Hb.
    unfold w2. cbn [sigintListeners record]. rewrite Hc. reflexivity.
Qed.

(** ** startContainer *)

(** X10. When the runtime refuses to start the container, the call is
    rejected with the runtime's error (unless the process ends
    meanwhile) and the logs are never requested; the interrupt
    listener registered at the beginning stays registered. *)
Theorem startContainer_start_refused rt interrupts container e w :
  fst (rt_start rt container
         (arrival rt interrupts (ContainerStart container)
            (add_listener (ForceStop container)
               (record (EvOnSIGINT (ForceStop container)) w)))) = Err e ->
  (exists t,
      trace (snd (startContainer rt interrupts container w)) =
      trace w ++ EvOnSIGINT (ForceStop container)
              :: EvRequest (ContainerStart container) :: t
      /\ Forall interruptEvent t)
  /\ sigintListeners (snd (startContainer rt interrupts container w)) =
     sigintListeners w ++ [ForceStop container]
  /\ (fst (startContainer rt interrupts container w) = Rejected e \/
      exists c, fst (startContainer rt interrupts container w) = Crashed c).
Proof.
  intros Href. split; [|split; [apply startContainer_listeners|]].
  - unfold startContainer. rewrite run_bind. cbn [process_on_SIGINT].
    set (w0 := add_listener _ _) in *.
    set (first := await rt interrupts (ContainerStart container) (rt_start rt container)).
    destruct (bind_failed first
                (fun _ => afterStart rt interrupts container) w0
                (await_not_fulfilled rt interrupts (ContainerStart container)
                   (rt_start rt container) e w0 Href)) as (Hw & _).
    unfold afterStart in Hw. rewrite Hw.
    destruct (begins_await rt interrupts interruptEvent (ContainerStart container)
                (rt_start rt container) (fun _ H => H) w0) as (t & Ht & HP).
    exists t. split; [|exact HP]. fold first in Ht. rewrite Ht. unfold w0.
    cbn [trace add_listener record]. rewrite <- app_assoc. reflexivity.
  - unfold startContainer. rewrite run_bind. cbn [process_on_SIGINT].
    set (w0 := add_listener _ _) in *.
    set (first := await rt interrupts (ContainerStart container) (rt_start rt container)).
    pose proof (await_refused rt interrupts (ContainerStart container)
                  (rt_start rt container) e w0 Href) as Hr. fold first in Hr.
    destruct (bind_failed first
                (fun _ => afterStart rt interrupts container) w0
                (await_not_fulfilled rt interrupts (ContainerStart container)
                   (rt_start rt container) e w0 Href)) as (_ & Ho).
    unfold afterStart in Ho.
    destruct Ho as [(e' & He' & Ho)|[(Hs & _)|(c & _ & Ho)]].
    + destruct Hr as [H|[c H]]; rewrite H in He'; inversion He'; subst.
      left. exact Ho.
    + destruct Hr as [H|[c H]]; rewrite H in Hs; discriminate.
    + right. eauto.
Qed.

Lemma startContainer_start_refused_witness :
  let run := startContainer dockerLike quiet c0ffee (runningWorld []) in
  fst (rt_start dockerLike c0ffee
         (arrival dockerLike quiet (ContainerStart c0ffee)
            (add_listener (ForceStop c0ffee)
               (record (EvOnSIGINT (ForceStop c0ffee)) (runningWorld [])))))
  = Err alreadyStarted
  /\ fst run = Rejected alreadyStarted
  /\ sigintListeners (snd run) = [ForceStop c0ffee; ForceStop c0ffee]
  /\ requestsOf (trace (snd run)) = [ContainerStart c0ffee].
Proof.
  cbv zeta. split; [reflexivity|].
  destruct (startContainer_start_refused dockerLike quiet c0ffee
              alreadyStarted (runningWorld []) eq_refl) as (_ & Hl & Ho).
  split; [|split; [exact Hl | reflexivity]].
  destruct Ho as [H|[c H]]; [exact H | discriminate H].
Defined.

(** X11. A call of [startContainer] that returns hands back the log
    stream of the container, asked for in follow mode with both
    outputs, with one listener on it, the one that logs each chunk:
    nothing listens for "end" or "error" on that stream.  Its requests
    were the start and then the logs. *)
Theorem startContainer_log_stream rt interrupts container w stream w' :
  startContainer rt interrupts container w = (Fulfilled stream, w') ->
  listeners stream = [("data", LogChunk)]
  /\ listenersFor stream "end" = [] /\ listenersFor stream "error" = []
  /\ (exists w1,
         fst (rt_logs rt container {| follow := true; stdout := true; stderr := true |} w1)
         = Ok (source stream))
  /\ plainRequests (trace w') =
     plainRequests (trace w) ++
     [ContainerStart container;
      ContainerLogs container {| follow := true; stdout := true; stderr := true |}].
Proof.
  intros Hrun. pose proof (startContainer_plain rt interrupts container w stream w' Hrun) as Hp.
  unfold startContainer in Hrun.
  apply bind_fulfilled in Hrun as ([] & w0 & _ & H).
  apply bind_fulfilled in H as ([] & w1 & _ & H).
  apply bind_fulfilled in H as (src & w2 & H2 & H).
  apply bind_fulfilled in H as (s & w3 & H3 & H).
  rewrite run_ret in H. inversion H; subst s w3. clear H.
  apply await_fulfilled in H2 as (wl & Hl).
  unfold sync, on, newStream in H3. cbn [source listeners app] in H3.
  destruct (on_throws src); [discriminate H3|].
  rewrite run_ret in H3. inversion H3; subst. cbn [listeners source].
  repeat split; try reflexivity; [exists wl; exact Hl | exact Hp].
Qed.

Lemma startContainer_log_stream_witness :
  let stream := {| source := {| on_throws := None; events := [] |};
                   listeners := [("data", LogChunk)] |} in
  let run := startContainer dockerLike quiet c0ffee createdWorld in
  run = (Fulfilled stream, snd run)
  /\ listeners stream = [("data", LogChunk)]
  /\ plainRequests (trace (snd run)) =
     [ContainerStart c0ffee; ContainerLogs c0ffee logsOptions].
Proof.
  cbv zeta.
  assert (H : startContainer dockerLike quiet c0ffee createdWorld
              = (Fulfilled {| source := {| on_throws := None; events := [] |};
                              listeners := [("data", LogChunk)] |},
                 snd (startContainer dockerLike quiet c0ffee createdWorld))).
  { reflexivity. }
  split; [exact H|].
  destruct (startContainer_log_stream dockerLike quiet c0ffee createdWorld _ _ H)
    as (Hl & _ & _ & _ & Hp).
  split; [exact Hl | exact Hp].
Defined.

(** ** The main script: the order of its requests *)

Lemma tearDown_plain rt interrupts container w w' :
  tearDown rt interrupts container w = (Fulfilled tt, w') ->
  plainRequests (trace w') =
  plainRequests (trace w) ++ [ContainerStop container None; ContainerRemove container].
Proof.
  unfold tearDown. intros H.
  apply bind_fulfilled in H as ([] & w1 & H1 & H).
  apply bind_fulfilled in H as ([] & w2 & H2 & H).
  apply bind_fulfilled in H as ([] & w3 & H3 & H).
  pose proof (await_plain rt interrupts (ContainerStop container None)
                (rt_stop rt container None) w eq_refl) as P1.
  rewrite H1 in P1. cbn [snd] in P1.
  pose proof (console_log_plain ("Container " ++ id container ++ " stopped.") w1) as P2.
  rewrite H2 in P2. cbn [snd] in P2.
  pose proof (await_plain rt interrupts (ContainerRemove container)
                (rt_remove rt container) w2 eq_refl) as P3.
  rewrite H3 in P3. cbn [snd] in P3.
  pose proof (console_log_plain ("Container " ++ id container ++ " removed.") w3) as P4.
  rewrite H in P4. cbn [snd] in P4.
  rewrite P4, P3, P2, P1, <- app_assoc. reflexivity.
Qed.

Lemma runBuild_plain rt interrupts container w w' :
  runBuild rt interrupts container w = (Fulfilled tt, w') ->
  exists exec1 exec2,
    plainRequests (trace w') =
    plainRequests (trace w) ++
    [ContainerStart container;
     ContainerLogs container logsOptions;
     ContainerExec container (execOptions ["mkdir"; "/app/"]);
     ExecStart exec1 execStartOptions;
     ContainerPutArchive container (archiveOf "./build/build.sh") {| path := "/app/" |};
     ContainerPutArchive container (archiveOf "./create_github_repo.sh")
                         {| path := "/app/" |};
     ContainerExec container (execOptions ["bash"; "/app/create_github_repo.sh"]);
     ExecStart exec2 execStartOptions].
Proof.
  unfold runBuild. intros H.
  apply bind_fulfilled in H as (stream & w1 & H1 & H).
  apply bind_fulfilled in H as ([] & w2 & H2 & H).
  apply bind_fulfilled in H as ([] & w3 & H3 & H).
  apply bind_fulfilled in H as ([] & w4 & H4 & H).
  apply bind_fulfilled in H as ([] & w5 & H5 & H).
  apply startContainer_plain in H1.
  pose proof (console_log_plain ("Container " ++ id container ++ " started.") w1) as P2.
  rewrite H2 in P2. cbn [snd] in P2.
  apply runCommandInContainer_plain in H3 as (exec1 & P3).
  pose proof (copyFileToContainer_plain rt interrupts container buildScriptPath
                containerHome w3) as P4.
  rewrite H4 in P4. cbn [snd] in P4.
  pose proof (copyFileToContainer_plain rt interrupts container "./create_github_repo.sh"
                containerHome w4) as P5.
  rewrite H5 in P5. cbn [snd] in P5.
  apply runCommandInContainer_plain in H as (exec2 & P6).
  exists exec1, exec2.
  rewrite P6, P5, P4, P3, P2, H1, <- !app_assoc. reflexivity.
Qed.

(** X12. Every run of the main script that completes has issued, for
    one container and in this order, exactly these requests of its
    own: create, start, logs, exec and exec start for the directory,
    the two archives, exec and exec start for the helper script, stop,
    remove.  Whatever else was requested is a forced stop of the
    interrupt listener. *)
Theorem main_request_sequence rt interrupts environment w w' :
  main rt interrupts false environment w = (Fulfilled tt, w') ->
  exists container exec1 exec2,
    plainRequests (trace w') =
    plainRequests (trace w) ++
    [DockerCreateContainer (createOptions "node:latest" environment);
     ContainerStart container;
     ContainerLogs container logsOptions;
     ContainerExec container (execOptions ["mkdir"; "/app/"]);
     ExecStart exec1 execStartOptions;
     ContainerPutArchive container (archiveOf "./build/build.sh") {| path := "/app/" |};
     ContainerPutArchive container (archiveOf "./create_github_repo.sh")
                         {| path := "/app/" |};
     ContainerExec container (execOptions ["bash"; "/app/create_github_repo.sh"]);
     ExecStart exec2 execStartOptions;
     ContainerStop container None;
     ContainerRemove container].
Proof.
  unfold main. intros H.
  apply bind_fulfilled in H as (container & w1 & H1 & H).
  apply bind_fulfilled in H as ([] & w2 & H2 & H).
  apply bind_fulfilled in H as ([] & w3 & H3 & H).
  pose proof (await_plain rt interrupts
                (DockerCreateContainer (createOptions baseImage environment))
                (rt_createContainer rt (createOptions baseImage environment)) w eq_refl)
    as P1.
  fold (createContainer rt interrupts baseImage environment) in P1.
  rewrite H1 in P1. cbn [snd] in P1.
  pose proof (console_log_plain ("Container " ++ id container ++ " created.") w1) as P2.
  rewrite H2 in P2. cbn [snd] in P2.
  apply runBuild_plain in H3 as (exec1 & exec2 & P3).
  apply tearDown_plain in H.
  exists container, exec1, exec2.
  rewrite H, P3, P2, P1, <- !app_assoc. reflexivity.
Qed.

Lemma main_request_sequence_witness :
  let run := main dockerLike quiet false ["X=1"] (freshWorld scriptFiles) in
  run = (Fulfilled tt, snd run)
  /\ exists container exec1 exec2,
      plainRequests (trace (snd run)) =
      plainRequests (trace (freshWorld scriptFiles)) ++
      [DockerCreateContainer (createOptions "node:latest" ["X=1"]);
       ContainerStart container;
       ContainerLogs container logsOptions;
       ContainerExec container (execOptions ["mkdir"; "/app/"]);
       ExecStart exec1 execStartOptions;
       ContainerPutArchive container (archiveOf "./build/build.sh") {| path := "/app/" |};
       ContainerPutArchive container (archiveOf "./create_github_repo.sh")
                           {| path := "/app/" |};
       ContainerExec container (execOptions ["bash"; "/app/create_github_repo.sh"]);
       ExecStart exec2 execStartOptions;
       ContainerStop container None;
       ContainerRemove container].
Proof.
  cbv zeta.
  assert (H : main dockerLike quiet false ["X=1"] (freshWorld scriptFiles)
              = (Fulfilled tt,
                 snd (main dockerLike quiet false ["X=1"] (freshWorld scriptFiles)))).
  { vm_compute. reflexivity. }
  split; [exact H|].
  exact (main_request_sequence dockerLike quiet ["X=1"] (freshWorld scriptFiles) _ H).
Defined.

(** X13. A dry run never completes.  The branch reads [dockerTag],
    which is declared nowhere: once the container is created the
    script logs two lines and fails with the reference error, before
    it prints the command it announces.  Whatever the runtime and the
    interrupts, a dry run issues the creation request and no other
    request of its own, so the created container is neither started
    nor removed. *)
Theorem main_dryRun_never_completes rt interrupts environment w :
  (forall u, fst (main rt interrupts true environment w) <> Fulfilled u)
  /\ plainRequests (trace (snd (main rt interrupts true environment w))) =
     plainRequests (trace w) ++
     [DockerCreateContainer (createOptions "node:latest" environment)]
  /\ forall container w1,
      createContainer rt interrupts baseImage environment w = (Fulfilled container, w1) ->
      main rt interrupts true environment w =
      (Rejected "ReferenceError: dockerTag is not defined",
       record (EvLog "-----")
         (record (EvLog "Dry run, not starting container. To debug, run:")
            (record (EvLog ("Container " ++ id container ++ " created.")) w1))).
Proof.
  pose proof (await_plain rt interrupts
                (DockerCreateContainer (createOptions baseImage environment))
                (rt_createContainer rt (createOptions baseImage environment)) w eq_refl)
    as P1.
  fold (createContainer rt interrupts baseImage environment) in P1.
  unfold main. rewrite run_bind.
  destruct (createContainer rt interrupts baseImage environment w)
    as [[c|e| |cr] w1]; cbn [fst snd] in *.
  - split; [intros u; discriminate|]. split.
    + change (trace (snd ((console_log ("Container " ++ id c ++ " created.") ;;
                           console_log "Dry run, not starting container. To debug, run:" ;;
                           console_log "-----" ;;
                           throw "ReferenceError: dockerTag is not defined") w1)))
        with (((trace w1 ++ [EvLog ("Container " ++ id c ++ " created.")])
               ++ [EvLog "Dry run, not starting container. To debug, run:"])
              ++ [EvLog "-----"]).
      assert (L : forall line, plainRequests [EvLog line] = []) by reflexivity.
      rewrite !plainRequests_app, P1, !L, !app_nil_r. reflexivity.
    + intros container w2 H. inversion H; subst. reflexivity.
  - split; [intros u; discriminate|]. split; [exact P1 | intros ? ? H; discriminate H].
  - split; [intros u; discriminate|]. split; [exact P1 | intros ? ? H; discriminate H].
  - split; [intros u; discriminate|]. split; [exact P1 | intros ? ? H; discriminate H].
Qed.

Lemma main_dryRun_never_completes_witness :
  createContainer dockerLike quiet baseImage ["X=1"] (freshWorld [])
  = (Fulfilled c0ffee, snd (createContainer dockerLike quiet baseImage ["X=1"] (freshWorld [])))
  /\ fst (main dockerLike quiet true ["X=1"] (freshWorld []))
     = Rejected "ReferenceError: dockerTag is not defined".
Proof.
  assert (H : createContainer dockerLike quiet baseImage ["X=1"] (freshWorld [])
              = (Fulfilled c0ffee,
                 snd (createContainer dockerLike quiet baseImage ["X=1"] (freshWorld [])))).
  { reflexivity. }
  split; [exact H|].
  rewrite (proj2 (proj2 (main_dryRun_never_completes dockerLike quiet ["X=1"]
                           (freshWorld []))) _ _ H).
  reflexivity.
Defined.

(** X14. When the runtime refuses to create the container, the script
    ends there with the runtime's error (unless the process ends
    meanwhile): the creation is not retried, no other request of the
    script follows, and no interrupt listener is registered. *)
Theorem main_creation_refused rt interrupts dryRun environment e w :
  fst (rt_createContainer rt (createOptions baseImage environment)
         (arrival rt interrupts
            (DockerCreateContainer (createOptions baseImage environment)) w)) = Err e ->
  plainRequests (trace (snd (main rt interrupts dryRun environment w))) =
    plainRequests (trace w) ++
    [DockerCreateContainer (createOptions "node:latest" environment)]
  /\ sigintListeners (snd (main rt interrupts dryRun environment w)) = sigintListeners w
  /\ (fst (main rt interrupts dryRun environment w) = Rejected e \/
      exists c, fst (main rt interrupts dryRun environment w) = Crashed c).
Proof.
  intros Href.
  pose proof (await_plain rt interrupts
                (DockerCreateContainer (createOptions baseImage environment))
                (rt_createContainer rt (createOptions baseImage environment)) w eq_refl)
    as P1.
  pose proof (silent_await rt interrupts
                (DockerCreateContainer (createOptions baseImage environment))
                (rt_createContainer rt (createOptions baseImage environment)) w) as S1.
  pose proof (await_refused rt interrupts
                (DockerCreateContainer (createOptions baseImage environment))
                (rt_createContainer rt (createOptions baseImage environment)) e w Href)
    as R1.
  fold (createContainer rt interrupts baseImage environment) in P1, S1, R1.
  unfold main. rewrite run_bind.
  destruct (createContainer rt interrupts baseImage environment w)
    as [[c|e'| |cr] w1]; cbn [fst snd] in *.
  - destruct R1 as [H|[c' H]]; discriminate H.
  - split; [exact P1|]. split; [exact S1|]. destruct R1 as [H|[c' H]];
      [inversion H; subst; left; reflexivity | discriminate H].
  - destruct R1 as [H|[c' H]]; discriminate H.
  - split; [exact P1|]. split; [exact S1|]. right. eauto.
Qed.

Lemma main_creation_refused_witness :
  let run := main dockerLike quiet false ["X=1"] createdWorld in
  fst (rt_createContainer dockerLike (createOptions baseImage ["X=1"])
         (arrival dockerLike quiet
            (DockerCreateContainer (createOptions baseImage ["X=1"])) createdWorld))
  = Err "(HTTP code 409) conflict"
  /\ fst run = Rejected "(HTTP code 409) conflict"
  /\ plainRequests (trace (snd run)) =
     [DockerCreateContainer (createOptions "node:latest" ["X=1"])].
Proof.
  cbv zeta. split; [reflexivity|].
  destruct (main_creation_refused dockerLike quiet false ["X=1"]
              "(HTTP code 409) conflict" createdWorld eq_refl) as (Hp & _ & Ho).
  split; [|exact Hp].
  destruct Ho as [H|[c H]]; [exact H | discriminate H].
Defined.

(** ** The archive of a copy *)

Lemma list_ascii_of_string_app (s1 s2 : string) :
  list_ascii_of_string (s1 ++ s2) = list_ascii_of_string s1 ++ list_ascii_of_string s2.
Proof. induction s1 as [|c s1 IH]; cbn; [reflexivity | now rewrite IH]. Qed.

Lemma dropWhile_none {A} (f : A -> bool) (l : list A) :
  Forall (fun x => f x = false) l -> dropWhile f l = l.
Proof. intros H. destruct H as [|x l Hx _]; cbn; [reflexivity | now rewrite Hx]. Qed.

Lemma dropWhile_all {A} (f : A -> bool) (l : list A) :
  Forall (fun x => f x = true) l -> dropWhile f l = [].
Proof. induction 1 as [|x l Hx _ IH]; cbn; [reflexivity | now rewrite Hx]. Qed.

Lemma takeWhile_all {A} (f : A -> bool) (l : list A) :
  Forall (fun x => f x = true) l -> takeWhile f l = l.
Proof. induction 1 as [|x l Hx _ IH]; cbn; [reflexivity | now rewrite Hx, IH]. Qed.

(** A bare file name: the directory is the current one. *)
Lemma path_bare_chars (c : ascii) (f : list ascii) :
  ~ In "/"%char (c :: f) ->
  basename_chars (c :: f) = c :: f /\ dirname_chars (c :: f) = ["."%char].
Proof.
  intros Hf.
  assert (Hno : Forall (fun y => isSlash y = false) (rev (c :: f))).
  { apply Forall_forall. intros y Hy. apply in_rev in Hy. unfold isSlash.
    destruct (Ascii.eqb_spec y "/"%char); [subst; contradiction | reflexivity]. }
  assert (Hns : Forall (fun y => negb (isSlash y) = true) (rev (c :: f))).
  { eapply Forall_impl; [|exact Hno]. cbn. intros y ->. reflexivity. }
  split.
  - unfold basename_chars. rewrite (dropWhile_none _ _ Hno), (takeWhile_all _ _ Hns).
    apply rev_involutive.
  - unfold dirname_chars. rewrite (dropWhile_none _ _ Hno), (dropWhile_all _ _ Hns).
    assert (Hc : isSlash c = false).
    { unfold isSlash. destruct (Ascii.eqb_spec c "/"%char); [|reflexivity].
      subst. exfalso. apply Hf. left. reflexivity. }
    rewrite Hc. reflexivity.
Qed.

(** A path made of a directory, a separator and a name splits back
    into the two, and the entry of its archive stands for the path
    itself. *)
Lemma path_split (d f : string) (c : ascii) :
  ~ In "/"%char (c :: list_ascii_of_string f) ->
  last (list_ascii_of_string d) "/"%char <> "/"%char ->
  dirname (d ++ "/" ++ String c f) = d /\ basename (d ++ "/" ++ String c f) = String c f.
Proof.
  intros Hf Hd. unfold dirname, basename.
  rewrite list_ascii_of_string_app. cbn [append list_ascii_of_string].
  destruct (path_split_chars (list_ascii_of_string d) (list_ascii_of_string f) c Hf Hd)
    as [Hb Hdir].
  cbv zeta in Hb, Hdir. rewrite Hb, Hdir, string_of_list_ascii_of_string.
  cbn [string_of_list_ascii]. rewrite string_of_list_ascii_of_string. auto.
Qed.

Lemma entryPath_of_path (d f : string) (c : ascii) :
  ~ In "/"%char (c :: list_ascii_of_string f) ->
  last (list_ascii_of_string d) "/"%char <> "/"%char ->
  let localPath := (d ++ "/" ++ String c f)%string in
  entryPath (archiveOf localPath) (basename localPath) = localPath.
Proof.
  intros Hf Hd localPath. subst localPath.
  destruct (path_split d f c Hf Hd) as [Hdir Hb].
  unfold entryPath, archiveOf, tar_create. cbn [tar_options cwd].
  rewrite Hdir, Hb.
  assert (Hend : endsWithSlash d = false).
  { unfold endsWithSlash, isSlash. destruct (list_ascii_of_string d) as [|x l].
    - exfalso. apply Hd. reflexivity.
    - assert (Hlast : forall a b, last (x :: l) a = last (x :: l) b).
      { clear. revert x. induction l as [|y l IH]; intros x a b; [reflexivity|].
        change (last (y :: l) a = last (y :: l) b). apply IH. }
      rewrite (Hlast _ "/"%char).
      destruct (Ascii.eqb_spec (last (x :: l) "/"%char) "/"%char); [contradiction|].
      reflexivity. }
  unfold asDirectory. rewrite Hend.
  assert (Happ : forall s1 s2 s3 : string, ((s1 ++ s2) ++ s3 = s1 ++ s2 ++ s3)%string).
  { intros s1 s2 s3. induction s1 as [|a s1 IH]; cbn; [reflexivity | now rewrite IH]. }
  apply Happ.
Qed.

(** For a bare file name the pack stream looks the file up in the
    current directory. *)
Lemma entryPath_of_name (c : ascii) (f : string) :
  ~ In "/"%char (c :: list_ascii_of_string f) ->
  entryPath (archiveOf (String c f)) (basename (String c f)) = ("./" ++ String c f)%string.
Proof.
  intros Hf. destruct (path_bare_chars c (list_ascii_of_string f) Hf) as [Hb Hdir].
  unfold entryPath, archiveOf, tar_create, dirname, basename. cbn [tar_options cwd].
  cbn [list_ascii_of_string]. rewrite Hb, Hdir. cbn [string_of_list_ascii].
  rewrite string_of_list_ascii_of_string. reflexivity.
Qed.

(** Directly under the root no separator is added. *)
Example entryPath_under_root :
  entryPath (archiveOf "/etc") (basename "/etc") = "/etc".
Proof. reflexivity. Qed.

(** For such a path, the file the pack stream looks up is the file the
    path names: it is missing exactly when the path does not exist. *)
Lemma lstat_of_path (d f : string) (c : ascii) w :
  ~ In "/"%char (c :: list_ascii_of_string f) ->
  last (list_ascii_of_string d) "/"%char <> "/"%char ->
  let localPath := (d ++ "/" ++ String c f)%string in
  lstat (localFiles w) (entryPath (archiveOf localPath) (basename localPath)) = None
  <-> existsSync w localPath = false.
Proof.
  intros Hf Hd localPath. pose proof (entryPath_of_path d f c Hf Hd) as E.
  cbv zeta in E. fold localPath in E. rewrite E. unfold existsSync.
  destruct (lstat (localFiles w) localPath); split; auto; discriminate.
Qed.

(** X15. For a local path made of a directory, a separator and a file
    name, the copy submits an archive rooted at that directory whose
    single entry is that file name; for a bare file name the archive is
    rooted at the current directory.  The directory must not end with
    a separator and the name must hold none. *)
Theorem copyFileToContainer_directory_and_name
    rt interrupts container (d f destPath : string) (c : ascii) w :
  ~ In "/"%char (c :: list_ascii_of_string f) ->
  last (list_ascii_of_string d) "/"%char <> "/"%char ->
  (exists t,
      trace (snd (copyFileToContainer rt interrupts container
                    (d ++ "/" ++ String c f) destPath w)) =
      trace w ++
      EvRequest (ContainerPutArchive container
                   {| tar_options := {| gzip := false; portable := true; cwd := d |};
                      tar_files := [String c f] |}
                   {| path := destPath |}) :: t
      /\ Forall interruptEvent t)
  /\ (exists t,
      trace (snd (copyFileToContainer rt interrupts container (String c f) destPath w)) =
      trace w ++
      EvRequest (ContainerPutArchive container
                   {| tar_options := {| gzip := false; portable := true; cwd := "." |};
                      tar_files := [String c f] |}
                   {| path := destPath |}) :: t
      /\ Forall interruptEvent t).
Proof.
  intros Hf Hd. split.
  - destruct (copyFileToContainer_begins rt interrupts container
                (d ++ "/" ++ String c f) destPath w) as (t & Ht & HP).
    exists t. split; [|exact HP]. rewrite Ht. unfold archiveOf, tar_create, dirname, basename.
    rewrite list_ascii_of_string_app. cbn [append list_ascii_of_string].
    destruct (path_split_chars (list_ascii_of_string d) (list_ascii_of_string f) c Hf Hd)
      as [Hb Hdir].
    cbv zeta in Hb, Hdir. rewrite Hb, Hdir, string_of_list_ascii_of_string.
    cbn [string_of_list_ascii]. rewrite string_of_list_ascii_of_string. reflexivity.
  - destruct (copyFileToContainer_begins rt interrupts container
                (String c f) destPath w) as (t & Ht & HP).
    exists t. split; [|exact HP]. rewrite Ht. unfold archiveOf, tar_create, dirname, basename.
    cbn [list_ascii_of_string].
    destruct (path_bare_chars c (list_ascii_of_string f) Hf) as [Hb Hdir].
    rewrite Hb, Hdir. cbn [string_of_list_ascii].
    rewrite string_of_list_ascii_of_string. reflexivity.
Qed.

Lemma copyFileToContainer_directory_and_name_witness :
  exists t,
    trace (snd (copyFileToContainer dockerLike quiet c0ffee "./build/build.sh" "/app/"
                  (runningWorld scriptFiles))) =
    trace (runningWorld scriptFiles) ++
    EvRequest (ContainerPutArchive c0ffee
                 {| tar_options := {| gzip := false; portable := true; cwd := "./build" |};
                    tar_files := ["build.sh"] |}
                 {| path := "/app/" |}) :: t
    /\ Forall interruptEvent t.
Proof.
  apply (proj1 (copyFileToContainer_directory_and_name dockerLike quiet c0ffee
                  "./build" "uild.sh" "/app/" "b"%char (runningWorld scriptFiles)
                  ltac:(cbn; intuition discriminate)
                  ltac:(cbn; discriminate))).
Defined.
